(** * Proxy-Network-Server: the per-connection pipeline of [proxy/handler.go]

    A shallow embedding of the request parser, the host resolver, the
    blocklist matcher and the two forwarding modes, with the properties
    the specification states about them.

    Go strings are byte strings; they are [string] here (one [ascii] per
    byte).  The functions of Go's standard library that the handler calls
    ([strings], [net], [net/url], [bufio], [fmt]) are embedded next to the
    handler's own functions, under their Go names.  [strings.ToLower],
    [strings.ToUpper], [strings.Fields] and [strings.TrimSpace] follow
    Go's ASCII path: on a string with a byte of 0x80 or above Go applies
    Unicode case and space tables, which this development leaves out. *)

From Stdlib Require Import Ascii String List Arith Lia Bool.
From stdpp Require Import base gmap strings list pretty.

Local Open Scope string_scope.
Local Open Scope list_scope.

#[local] Arguments String.append !_ _ / : simpl nomatch.

(** ** Bytes and strings *)

Module Str.

Definition byte_eqb (a b : ascii) : bool := Ascii.eqb a b.

Definition code (c : ascii) : nat := nat_of_ascii c.

(** [lo <= c && c <= hi] on bytes. *)
Definition between (lo hi c : ascii) : bool :=
  (code lo <=? code c)%nat && (code c <=? code hi)%nat.

(** [s[n:]]. *)
Fixpoint drop (n : nat) (s : string) : string :=
  match n, s with
  | 0, _ => s
  | S _, EmptyString => EmptyString
  | S n', String _ s' => drop n' s'
  end.

(** [s[:n]]. *)
Fixpoint take (n : nat) (s : string) : string :=
  match n, s with
  | 0, _ => EmptyString
  | S _, EmptyString => EmptyString
  | S n', String c s' => String c (take n' s')
  end.

(** [s[i:j]]. *)
Definition slice (i j : nat) (s : string) : string := take (j - i) (drop i s).

(** [s[0]], when [s] is not empty. *)
Definition head (s : string) : option ascii :=
  match s with EmptyString => None | String c _ => Some c end.

(** [strings.IndexByte]: the position of the first [c] in [s]. *)
Fixpoint IndexByte (s : string) (c : ascii) : option nat :=
  match s with
  | EmptyString => None
  | String x s' =>
      if byte_eqb x c then Some 0
      else match IndexByte s' c with Some i => Some (S i) | None => None end
  end.

(** [strings.LastIndexByte]: the position of the last [c] in [s]. *)
Fixpoint LastIndexByte (s : string) (c : ascii) : option nat :=
  match s with
  | EmptyString => None
  | String x s' =>
      match LastIndexByte s' c with
      | Some i => Some (S i)
      | None => if byte_eqb x c then Some 0 else None
      end
  end.

(** [strings.HasPrefix s p]. *)
Fixpoint HasPrefix (s p : string) : bool :=
  match p, s with
  | EmptyString, _ => true
  | String _ _, EmptyString => false
  | String b p', String a s' => byte_eqb a b && HasPrefix s' p'
  end.

(** [strings.HasSuffix s p]. *)
Definition HasSuffix (s p : string) : bool :=
  (String.length p <=? String.length s)%nat
  && String.eqb (drop (String.length s - String.length p) s) p.

(** [strings.Index s sub]: the position of the first occurrence. *)
Fixpoint Index (s sub : string) : option nat :=
  if HasPrefix s sub then Some 0
  else match s with
       | EmptyString => None
       | String _ s' =>
           match Index s' sub with Some i => Some (S i) | None => None end
       end.

(** [strings.Contains s sub]. *)
Definition Contains (s sub : string) : bool :=
  match Index s sub with Some _ => true | None => false end.

(** [strings.Cut s sep]: the text before and after the first [sep]. *)
Definition Cut (s sep : string) : string * string * bool :=
  match Index s sep with
  | Some i => (take i s, drop (i + String.length sep) s, true)
  | None => (s, EmptyString, false)
  end.

(** [strings.Split s sep] for a one-byte separator: always at least one
    part, [Split "" sep = [""]]. *)
Fixpoint Split (s : string) (sep : ascii) : list string :=
  match s with
  | EmptyString => [EmptyString]
  | String c s' =>
      if byte_eqb c sep then EmptyString :: Split s' sep
      else match Split s' sep with
           | [] => [String c EmptyString]
           | p :: ps => String c p :: ps
           end
  end.

(** [strings.Join parts sep]. *)
Fixpoint Join (parts : list string) (sep : string) : string :=
  match parts with
  | [] => EmptyString
  | [p] => p
  | p :: ps => p +:+ sep +:+ Join ps sep
  end.

Definition lower_byte (c : ascii) : ascii :=
  if between "A" "Z" c then ascii_of_nat (code c + 32) else c.

Definition upper_byte (c : ascii) : ascii :=
  if between "a" "z" c then ascii_of_nat (code c - 32) else c.

Fixpoint map_bytes (f : ascii -> ascii) (s : string) : string :=
  match s with
  | EmptyString => EmptyString
  | String c s' => String (f c) (map_bytes f s')
  end.

(** [strings.ToLower], [strings.ToUpper] (ASCII). *)
Definition ToLower (s : string) : string := map_bytes lower_byte s.
Definition ToUpper (s : string) : string := map_bytes upper_byte s.

(** Go's [asciiSpace] table: tab, line feed, vertical tab, form feed,
    carriage return, space. *)
Definition isSpace (c : ascii) : bool :=
  let n := code c in
  (n =? 9)%nat || (n =? 10)%nat || (n =? 11)%nat || (n =? 12)%nat
  || (n =? 13)%nat || (n =? 32)%nat.

Fixpoint TrimLeft (s : string) : string :=
  match s with
  | EmptyString => EmptyString
  | String c s' => if isSpace c then TrimLeft s' else s
  end.

(** Drops the trailing white space. *)
Fixpoint TrimRight (s : string) : string :=
  match s with
  | EmptyString => EmptyString
  | String c s' =>
      match TrimRight s' with
      | EmptyString => if isSpace c then EmptyString else String c EmptyString
      | t => String c t
      end
  end.

(** [strings.TrimSpace]. *)
Definition TrimSpace (s : string) : string := TrimRight (TrimLeft s).

(** [strings.Fields]: the maximal runs of bytes that are not white space.
    [cur] is the field being read, if any. *)
Fixpoint fields_from (cur : option string) (s : string) : list string :=
  match s with
  | EmptyString => match cur with Some f => [f] | None => [] end
  | String c s' =>
      if isSpace c then
        match cur with
        | Some f => f :: fields_from None s'
        | None => fields_from None s'
        end
      else
        match cur with
        | Some f => fields_from (Some (f +:+ String c EmptyString)) s'
        | None => fields_from (Some (String c EmptyString)) s'
        end
  end.

Definition Fields (s : string) : list string := fields_from None s.

End Str.

(** ** [net.SplitHostPort] and [net.JoinHostPort] *)

Module Net.
Import Str.

(** [net.SplitHostPort]: [Some (host, port)], or [None] for an
    [AddrError]. *)
Definition SplitHostPort (hostport : string) : option (string * string) :=
  (* The port starts after the last colon. *)
  match LastIndexByte hostport ":" with
  | None => None (* missing port in address *)
  | Some i =>
      let bracketed :=
        match head hostport with
        | Some c => byte_eqb c "["
        | None => false
        end in
      let checked : option (string * nat * nat) :=
        if bracketed then
          (* Expect the first ']' just before the last ':'. *)
          match IndexByte hostport "]" with
          | None => None (* missing ']' in address *)
          | Some e =>
              if (e + 1 =? String.length hostport)%nat then None
              else if (e + 1 =? i)%nat then Some (slice 1 e hostport, 1, e + 1)
              else None (* too many colons, or missing port *)
          end
        else
          let host := take i hostport in
          match IndexByte host ":" with
          | Some _ => None (* too many colons in address *)
          | None => Some (host, 0, 0)
          end in
      match checked with
      | None => None
      | Some (host, j, k) =>
          match IndexByte (drop j hostport) "[" with
          | Some _ => None (* unexpected '[' in address *)
          | None =>
              match IndexByte (drop k hostport) "]" with
              | Some _ => None (* unexpected ']' in address *)
              | None => Some (host, drop (i + 1) hostport)
              end
          end
      end
  end.

(** [net.JoinHostPort]: a host with a colon is taken for an IPv6
    literal and bracketed. *)
Definition JoinHostPort (host port : string) : string :=
  match IndexByte host ":" with
  | Some _ => "[" +:+ host +:+ "]:" +:+ port
  | None => host +:+ ":" +:+ port
  end.

End Net.

(** ** [net/url]: [url.Parse], [URL.Hostname], [URL.Port]

    The parser as in Go's [net/url] (the classic host syntax, without the
    later check that a bracketed host is an IPv6 address).  The record
    keeps the fields the handler can observe; the user name and password
    are validated as Go does, and then dropped. *)

Module Url.
Import Str.

Record URL := mkURL {
  Scheme : string;
  Opaque : string;
  Host : string;
  Path : string;
  ForceQuery : bool;
  RawQuery : string;
  Fragment : string
}.

Inductive encoding :=
| encodePath | encodePathSegment | encodeHost | encodeZone
| encodeUserPassword | encodeQueryComponent | encodeFragment.

Definition encoding_eqb (a b : encoding) : bool :=
  match a, b with
  | encodePath, encodePath | encodePathSegment, encodePathSegment
  | encodeHost, encodeHost | encodeZone, encodeZone
  | encodeUserPassword, encodeUserPassword
  | encodeQueryComponent, encodeQueryComponent
  | encodeFragment, encodeFragment => true
  | _, _ => false
  end.

Definition isAlpha (c : ascii) : bool := between "a" "z" c || between "A" "Z" c.
Definition isDigit (c : ascii) : bool := between "0" "9" c.

(** [c] is one of the bytes of [set]. *)
Definition oneOf (set : string) (c : ascii) : bool :=
  match IndexByte set c with Some _ => true | None => false end.

Definition ishex (c : ascii) : bool :=
  isDigit c || between "a" "f" c || between "A" "F" c.

Definition unhex (c : ascii) : nat :=
  if isDigit c then code c - code "0"
  else if between "a" "f" c then code c - code "a" + 10
  else if between "A" "F" c then code c - code "A" + 10
  else 0.

Definition dquote : ascii := ascii_of_nat 34.

(** [shouldEscape c mode]. *)
Definition shouldEscape (c : ascii) (mode : encoding) : bool :=
  if isAlpha c || isDigit c then false
  else if (encoding_eqb mode encodeHost || encoding_eqb mode encodeZone)
          && (oneOf "!$&'()*+,;=:[]<>" c || byte_eqb c dquote) then false
  else if oneOf "-_.~" c then false
  else if oneOf "$&+,/:;=?@" c then
    match mode with
    | encodePath => byte_eqb c "?"
    | encodePathSegment => oneOf "/;,?" c
    | encodeUserPassword => oneOf "@/?:" c
    | encodeQueryComponent => true
    | encodeFragment => false
    | encodeHost | encodeZone => true
    end
  else if encoding_eqb mode encodeFragment && oneOf "!()*" c then false
  else true.

(** The first loop of [unescape]: every [%] starts a well-formed escape
    that the mode allows, and a host has no byte that needs escaping. *)
Fixpoint unescapeValid (s : string) (mode : encoding) : bool :=
  match s with
  | EmptyString => true
  | String c s1 =>
      if byte_eqb c "%" then
        match s1 with
        | String a (String b rest) =>
            if negb (ishex a && ishex b) then false
            else if encoding_eqb mode encodeHost && (unhex a <? 8)%nat
                    && negb (byte_eqb a "2" && byte_eqb b "5") then false
            else if encoding_eqb mode encodeZone
                    && negb (byte_eqb a "2" && byte_eqb b "5")
                    && negb (unhex a * 16 + unhex b =? 32)%nat
                    && shouldEscape (ascii_of_nat (unhex a * 16 + unhex b)) encodeHost
                 then false
            else unescapeValid rest mode
        | _ => false
        end
      else if byte_eqb c "+" then unescapeValid s1 mode
      else if (encoding_eqb mode encodeHost || encoding_eqb mode encodeZone)
              && (code c <? 128)%nat && shouldEscape c encodeHost then false
      else unescapeValid s1 mode
  end.

(** The second loop of [unescape]: the decoded bytes. *)
Fixpoint unescapeDecode (s : string) (mode : encoding) : string :=
  match s with
  | EmptyString => EmptyString
  | String c s1 =>
      if byte_eqb c "%" then
        match s1 with
        | String a (String b rest) =>
            String (ascii_of_nat (unhex a * 16 + unhex b)) (unescapeDecode rest mode)
        | _ => s
        end
      else if byte_eqb c "+" then
        String (if encoding_eqb mode encodeQueryComponent then " "%char else "+"%char)
               (unescapeDecode s1 mode)
      else String c (unescapeDecode s1 mode)
  end.

(** [unescape s mode]; [None] is an [EscapeError] or [InvalidHostError]. *)
Definition unescape (s : string) (mode : encoding) : option string :=
  if unescapeValid s mode then Some (unescapeDecode s mode) else None.

Fixpoint allBytes (p : ascii -> bool) (s : string) : bool :=
  match s with
  | EmptyString => true
  | String c s' => p c && allBytes p s'
  end.

(** A byte below space, or DEL. *)
Definition stringContainsCTLByte (s : string) : bool :=
  negb (allBytes (fun c => negb ((code c <? 32)%nat || (code c =? 127)%nat)) s).

(** [validOptionalPort]: empty, or a colon and digits. *)
Definition validOptionalPort (port : string) : bool :=
  match port with
  | EmptyString => true
  | String c digits => byte_eqb c ":" && allBytes isDigit digits
  end.

Definition validUserinfo (s : string) : bool :=
  allBytes (fun r => isAlpha r || isDigit r || oneOf "-._:~!$&'()*+,;=%@" r) s.

(** The loop of [getScheme], at index [i] of [rawURL] with [s] left to
    read; [None] is "missing protocol scheme". *)
Fixpoint getSchemeFrom (i : nat) (s rawURL : string) : option (string * string) :=
  match s with
  | EmptyString => Some (EmptyString, rawURL)
  | String c s' =>
      if isAlpha c then getSchemeFrom (S i) s' rawURL
      else if isDigit c || oneOf "+-." c then
        if (i =? 0)%nat then Some (EmptyString, rawURL)
        else getSchemeFrom (S i) s' rawURL
      else if byte_eqb c ":" then
        if (i =? 0)%nat then None
        else Some (take i rawURL, drop (i + 1) rawURL)
      else Some (EmptyString, rawURL)
  end.

Definition getScheme (rawURL : string) : option (string * string) :=
  getSchemeFrom 0 rawURL rawURL.

(** [strings.LastIndex] for a one-byte pattern. *)
Definition LastIndex1 (s : string) (c : ascii) : option nat := LastIndexByte s c.

Definition parseHost (host : string) : option string :=
  if HasPrefix host "[" then
    (* an IP literal, possibly with a zone and a port *)
    match LastIndex1 host "]" with
    | None => None (* missing ']' in host *)
    | Some i =>
        let colonPort := drop (i + 1) host in
        if negb (validOptionalPort colonPort) then None
        else
          match Index (take i host) "%25" with
          | Some zone =>
              match unescape (take zone host) encodeHost,
                    unescape (slice zone i host) encodeZone,
                    unescape (drop i host) encodeHost with
              | Some host1, Some host2, Some host3 => Some (host1 +:+ host2 +:+ host3)
              | _, _, _ => None
              end
          | None => unescape host encodeHost
          end
    end
  else
    match LastIndex1 host ":" with
    | Some i =>
        if negb (validOptionalPort (drop i host)) then None
        else unescape host encodeHost
    | None => unescape host encodeHost
    end.

(** [parseAuthority]: the host, once the user information has passed its
    checks. *)
Definition parseAuthority (authority : string) : option string :=
  match LastIndex1 authority "@" with
  | None => parseHost authority
  | Some i =>
      match parseHost (drop (i + 1) authority) with
      | None => None
      | Some host =>
          let userinfo := take i authority in
          if negb (validUserinfo userinfo) then None
          else if negb (Contains userinfo ":") then
            match unescape userinfo encodeUserPassword with
            | Some _ => Some host
            | None => None
            end
          else
            let '(username, password, _) := Cut userinfo ":" in
            match unescape username encodeUserPassword,
                  unescape password encodeUserPassword with
            | Some _, Some _ => Some host
            | _, _ => None
            end
      end
  end.

Fixpoint CountByte (s : string) (c : ascii) : nat :=
  match s with
  | EmptyString => 0
  | String x s' => (if byte_eqb x c then 1 else 0) + CountByte s' c
  end.

(** [parse rawURL false]: a URL without its fragment. *)
Definition parse (rawURL : string) : option URL :=
  if stringContainsCTLByte rawURL then None
  else if String.eqb rawURL "*" then Some (mkURL "" "" "" "*" false "" "")
  else
    match getScheme rawURL with
    | None => None
    | Some (scheme, rest) =>
        let scheme := ToLower scheme in
        let '(rest, rawQuery, forceQuery) :=
          if HasSuffix rest "?" && (CountByte rest "?" =? 1)%nat
          then (take (String.length rest - 1) rest, EmptyString, true)
          else let '(r, q, _) := Cut rest "?" in (r, q, false) in
        if negb (HasPrefix rest "/") && negb (String.eqb scheme "") then
          (* a rootless path is opaque *)
          Some (mkURL scheme rest "" "" forceQuery rawQuery "")
        else if negb (HasPrefix rest "/")
                && Contains (fst (fst (Cut rest "/"))) ":" then
          None (* first path segment in URL cannot contain colon *)
        else
          let parsed : option (string * string) :=
            if (negb (String.eqb scheme "") || negb (HasPrefix rest "///"))
               && HasPrefix rest "//" then
              let authority := drop 2 rest in
              let '(authority, rest) :=
                match Index authority "/" with
                | Some i => (take i authority, drop i authority)
                | None => (authority, EmptyString)
                end in
              match parseAuthority authority with
              | Some host => Some (host, rest)
              | None => None
              end
            else Some (EmptyString, rest) in
          match parsed with
          | None => None
          | Some (host, rest) =>
              match unescape rest encodePath with
              | None => None
              | Some path => Some (mkURL scheme "" host path forceQuery rawQuery "")
              end
          end
    end.

(** [url.Parse]. *)
Definition Parse (rawURL : string) : option URL :=
  let '(u, frag, _) := Cut rawURL "#" in
  match parse u with
  | None => None
  | Some url =>
      if String.eqb frag "" then Some url
      else
        match unescape frag encodeFragment with
        | None => None
        | Some f =>
            Some (mkURL (Scheme url) (Opaque url) (Host url) (Path url)
                        (ForceQuery url) (RawQuery url) f)
        end
  end.

(** The package's own [splitHostPort], behind [Hostname] and [Port]. *)
Definition splitHostPort (hostPort : string) : string * string :=
  let '(host, port) :=
    match LastIndexByte hostPort ":" with
    | Some colon =>
        if validOptionalPort (drop colon hostPort)
        then (take colon hostPort, drop (colon + 1) hostPort)
        else (hostPort, EmptyString)
    | None => (hostPort, EmptyString)
    end in
  if HasPrefix host "[" && HasSuffix host "]"
  then (slice 1 (String.length host - 1) host, port)
  else (host, port).

Definition Hostname (u : URL) : string := fst (splitHostPort (Host u)).
Definition Port (u : URL) : string := snd (splitHostPort (Host u)).

End Url.

(** ** The handler: [proxy/handler.go] *)

Module Proxy.
Import Str Net Url.

(** *** The blocklist matcher *)

(** [blocklist[key]] on a Go [map[string]bool]: an absent key reads as
    [false]. *)
Definition lookupBlock (blocklist : gmap string bool) (key : string) : bool :=
  default false (blocklist !! key).

(** The loop [for i := 1; i < len(parts); i++] of [isBlocked], with [n]
    iterations left. *)
Fixpoint checkParents (blocklist : gmap string bool) (parts : list string)
    (i n : nat) : bool :=
  match n with
  | 0 => false
  | S n' =>
      let parentDomain := Join (List.skipn i parts) "." in
      if lookupBlock blocklist parentDomain then true
      else checkParents blocklist parts (S i) n'
  end.

(** The normalisation at the head of [isBlocked]: lower-case, then strip
    the port when [net.SplitHostPort] accepts the host. *)
Definition normalizeHost (host : string) : string :=
  let host := ToLower host in
  match SplitHostPort host with
  | Some (h, _) => h
  | None => host
  end.

(** [isBlocked] checks if the host is in the blocklist: the host itself,
    then each parent domain. *)
Definition isBlocked (host : string) (blocklist : gmap string bool) : bool :=
  let host := normalizeHost host in
  if String.eqb host "" then false
  else if lookupBlock blocklist host then true
  else
    let parts := Split host "." in
    checkParents blocklist parts 1 (List.length parts - 1).

(** [loadBlockedDomains] of [main.go], over the lines the scanner
    yields: blank lines and [#] comments are skipped, every other line is
    entered trimmed and lower-cased. *)
Definition loadBlockedDomains (lines : list string) : gmap string bool :=
  fold_left
    (fun blocklist line =>
       let domain := TrimSpace line in
       if negb (String.eqb domain "") && negb (HasPrefix domain "#")
       then <[ToLower domain := true]> blocklist
       else blocklist)
    lines ∅.

(** *** Host resolution *)

(** [parseHostPort] splits host:port, using [defaultPort] when
    [net.SplitHostPort] fails. *)
Definition parseHostPort (addr defaultPort : string) : string * string :=
  match SplitHostPort addr with
  | None => (addr, defaultPort)
  | Some (host, port) => (host, port)
  end.

Definition hasHTTPScheme (rawURI : string) : bool :=
  HasPrefix rawURI "http://" || HasPrefix rawURI "https://".

(** [extractHostFromURI] extracts host and port from the URI or the Host
    header. *)
Definition extractHostFromURI (rawURI hostHeader : string) : string * string :=
  match (if hasHTTPScheme rawURI then Parse rawURI else None) with
  | Some u =>
      let host := Hostname u in
      let port := Port u in
      let port :=
        if String.eqb port "" then
          if String.eqb (Scheme u) "https" then "443" else "80"
        else port in
      (host, port)
  | None =>
      (* Fall back to Host header *)
      if negb (String.eqb hostHeader "")
      then parseHostPort (TrimSpace hostHeader) "80"
      else ("", "80")
  end.

(** The choice at the head of [HandleConnection] between the CONNECT
    form and the HTTP forms. *)
Definition resolveTarget (method rawURI hostHeader : string) : string * string :=
  if String.eqb method "CONNECT"
  then parseHostPort rawURI "443"
  else extractHostFromURI rawURI hostHeader.

(** [cleanRequestURI] converts absolute URIs to relative paths. *)
Definition cleanRequestURI (rawURI : string) : string :=
  match (if hasHTTPScheme rawURI then Parse rawURI else None) with
  | Some u =>
      let path := Path u in
      let path := if String.eqb path "" then "/" else path in
      if negb (String.eqb (RawQuery u) "")
      then path +:+ "?" +:+ RawQuery u
      else path
  | None => rawURI
  end.

(** *** The connection and its observable effects *)

Record LogRecord := mkLog {
  logTime : string;
  logClient : string;
  logHost : string;
  logMethod : string;
  logStatus : string;
  logDetails : string
}.

(** The line [logConnection] appends to the log file. *)
Definition logLine (r : LogRecord) : string :=
  "[" +:+ logTime r +:+ "] Client: " +:+ logClient r +:+ " | Host: " +:+ logHost r
  +:+ " | Method: " +:+ logMethod r +:+ " | Status: " +:+ logStatus r
  +:+ " | Details: " +:+ logDetails r +:+ String (ascii_of_nat 10) "".

(** What a handler does to the outside, in order.  [EvRelay src] is the
    two-way copy of [handleHTTPS] and [handleHTTP] up to its [wg.Wait()];
    [src] is what the client-to-target copy reads first: the bytes left
    in the [bufio.Reader] for HTTP, nothing for a tunnel, which reads the
    connection itself. *)
Inductive Event :=
| EvLog (r : LogRecord)
| EvClientWrite (data : string)
| EvDial (addr : string)
| EvTargetWrite (data : string)
| EvRelay (src : option string)
| EvTargetClose
| EvClientClose.

Inductive DialResult := DialOk | DialErr (err : string).

(** What the handler cannot decide: the peer's address, the clock, the
    outcome of the dial, and whether the n-th write on a connection
    succeeds. *)
Record World := mkWorld {
  remoteAddr : string;
  now : string;
  dial : string -> DialResult;
  clientWriteOk : nat -> bool;
  targetWriteOk : nat -> bool
}.

Definition CR : ascii := ascii_of_nat 13.
Definition LF : ascii := ascii_of_nat 10.
Definition CRLF : string := String CR (String LF "").

(** [fmt.Sprintf("%d", n)]. *)
Definition itoa (n : nat) : string := pretty n.

(** The response [sendError] formats. *)
Definition errorResponse (statusCode : nat) (statusText : string) : string :=
  "HTTP/1.1 " +:+ itoa statusCode +:+ " " +:+ statusText +:+ CRLF
  +:+ "Content-Type: text/plain" +:+ CRLF +:+ "Connection: close" +:+ CRLF +:+ CRLF
  +:+ itoa statusCode +:+ " " +:+ statusText +:+ String LF "".

(** [sendError] sends an HTTP error response to the client; the result
    of the write is dropped. *)
Definition sendError (statusCode : nat) (statusText : string) : list Event :=
  [EvClientWrite (errorResponse statusCode statusText)].

(** [logConnection] logs connection details to the log file. *)
Definition logConnection (w : World) (clientAddr targetHost method status details : string)
  : list Event :=
  [EvLog (mkLog (now w) clientAddr targetHost method status details)].

(** [bufio.Reader.ReadString] on a client that sends [r] and then closes:
    the line with its delimiter, or the rest of the input and an error.
    Returns (line, err, what is left to read). *)
Fixpoint ReadString (r : string) (delim : ascii) : string * bool * string :=
  match r with
  | EmptyString => (EmptyString, true, EmptyString)
  | String c r' =>
      if byte_eqb c delim then (String c EmptyString, false, r')
      else let '(line, err, rest) := ReadString r' delim in (String c line, err, rest)
  end.

Definition isHostLine (line : string) : bool := HasPrefix (ToLower line) "host:".

(** The header loop of [HandleConnection]; every turn reads a line, so
    [fuel] above the length of the input is never used up. *)
Fixpoint readHeaders (fuel : nat) (reader : string) (headers : list string)
    (hostHeader : string) : option (list string * string * string) :=
  match fuel with
  | 0 => None
  | S fuel' =>
      let '(line, err, reader) := ReadString reader LF in
      if err || String.eqb line CRLF || String.eqb line (String LF "")
      then Some (headers, hostHeader, reader)
      else
        let headers := headers ++ [line] in
        let hostHeader :=
          if isHostLine line then
            let hostHeader := TrimSpace (drop 5 (ToLower line)) in
            TrimSpace (drop 5 line) (* Preserve original case *)
          else hostHeader in
        readHeaders fuel' reader headers hostHeader
  end.

(** [handleHTTPS] handles CONNECT requests for HTTPS tunneling. *)
Definition handleHTTPS (w : World) (targetHost targetPort : string) : list Event :=
  let targetAddr := JoinHostPort targetHost targetPort in
  EvDial targetAddr ::
  match dial w targetAddr with
  | DialErr err =>
      logConnection w (remoteAddr w) targetHost "CONNECT" "ERROR" ("Failed to connect: " +:+ err)
      ++ sendError 502 "Bad Gateway"
  | DialOk =>
      EvClientWrite ("HTTP/1.1 200 Connection Established" +:+ CRLF +:+ CRLF) ::
      (if negb (clientWriteOk w 0) then
         logConnection w (remoteAddr w) targetHost "CONNECT" "ERROR" "Failed to send response"
       else
         logConnection w (remoteAddr w) targetHost "CONNECT" "OK" "Tunnel established"
         ++ [EvRelay None])
      ++ [EvTargetClose]
  end.

(** [handleHTTP] handles regular HTTP requests. *)
Definition handleHTTP (w : World) (reader method rawURI httpVersion : string)
    (headers : list string) (targetHost targetPort : string) : list Event :=
  let targetAddr := JoinHostPort targetHost targetPort in
  EvDial targetAddr ::
  match dial w targetAddr with
  | DialErr err =>
      logConnection w (remoteAddr w) targetHost method "ERROR" ("Failed to connect: " +:+ err)
      ++ sendError 502 "Bad Gateway"
  | DialOk =>
      let cleanedURI := cleanRequestURI rawURI in
      let requestLine := method +:+ " " +:+ cleanedURI +:+ " " +:+ httpVersion +:+ CRLF in
      EvTargetWrite requestLine ::
      (if negb (targetWriteOk w 0) then
         logConnection w (remoteAddr w) targetHost method "ERROR" "Failed to forward request"
         ++ sendError 502 "Bad Gateway"
       else
         List.map EvTargetWrite headers
         ++ [EvTargetWrite CRLF]
         ++ logConnection w (remoteAddr w) targetHost method "OK" cleanedURI
         ++ [EvRelay (Some reader)])
      ++ [EvTargetClose]
  end.

(** What the head of [HandleConnection] makes of the client's bytes. *)
Inductive Parsed :=
| ReadFailed
| InvalidLine
| Request (method rawURI httpVersion : string) (headers : list string)
          (hostHeader : string) (reader : string).

(** The head of [HandleConnection]: the request line and the header
    loop.  [None] only if the header loop ran out of fuel. *)
Definition readRequest (clientConn : string) : option Parsed :=
  (* Read the first line of the request *)
  let '(requestLine, err, reader) := ReadString clientConn LF in
  if err then Some ReadFailed
  else
    (* Parse the request line (METHOD URI HTTP/VERSION) *)
    let parts := Fields requestLine in
    if (List.length parts <? 3)%nat then Some InvalidLine
    else
      let method := ToUpper (nth 0 parts "") in
      let rawURI := nth 1 parts "" in
      let httpVersion := nth 2 parts "" in
      (* Read remaining headers *)
      match readHeaders (S (String.length reader)) reader [] "" with
      | None => None
      | Some (headers, hostHeader, reader) =>
          Some (Request method rawURI httpVersion headers hostHeader reader)
      end.

(** [HandleConnection] processes an incoming proxy connection whose
    client sends [clientConn] and then closes its side. *)
Definition HandleConnection (w : World) (clientConn : string)
    (blocklist : gmap string bool) : option (list Event) :=
  match readRequest clientConn with
  | None => None
  | Some ReadFailed =>
      Some (logConnection w (remoteAddr w) "" "" "ERROR" "Failed to read request"
            ++ [EvClientClose])
  | Some InvalidLine =>
      Some (logConnection w (remoteAddr w) "" "" "ERROR" "Invalid request line"
            ++ sendError 400 "Bad Request"
            ++ [EvClientClose])
  | Some (Request method rawURI httpVersion headers hostHeader reader) =>
      (* Determine target host and port *)
      let '(targetHost, targetPort) := resolveTarget method rawURI hostHeader in
      (* Check blocklist *)
      if isBlocked targetHost blocklist then
        Some (logConnection w (remoteAddr w) targetHost method "BLOCKED" "Domain is blocked"
              ++ sendError 403 "Forbidden"
              ++ [EvClientClose])
      else if String.eqb method "CONNECT" then
        Some (handleHTTPS w targetHost targetPort ++ [EvClientClose])
      else
        Some (handleHTTP w reader method rawURI httpVersion headers targetHost targetPort
              ++ [EvClientClose])
  end.

(** *** Sample connections *)

(** A world where the dial returns [d] and the n-th write to the target
    succeeds when [writes n] holds. *)
Definition sampleWorld (d : DialResult) (writes : nat -> bool) : World :=
  mkWorld "127.0.0.1:52174" "2026-01-08 18:10:00" (fun _ => d) (fun _ => true) writes.

(** The bytes of a request from its lines, each ended by CR LF, with the
    blank line and a body after them. *)
Definition requestBytes (lines : list string) (body : string) : string :=
  fold_right (fun line rest => line +:+ CRLF +:+ rest) (CRLF +:+ body) lines.

(** *** Reading a trace *)

Definition logsWithStatus (status : string) (t : list Event) : list LogRecord :=
  flat_map (fun e => match e with
                     | EvLog r => if String.eqb (logStatus r) status then [r] else []
                     | _ => []
                     end) t.

Definition clientWrites (t : list Event) : list string :=
  flat_map (fun e => match e with EvClientWrite d => [d] | _ => [] end) t.

Definition targetWrites (t : list Event) : list string :=
  flat_map (fun e => match e with EvTargetWrite d => [d] | _ => [] end) t.

Definition dials (t : list Event) : list string :=
  flat_map (fun e => match e with EvDial a => [a] | _ => [] end) t.



(** All the bytes of a list of lines, in order. *)
Definition concatLines (lines : list string) : string :=
  fold_right String.append "" lines.

(** The value of the last line of [headers] that [isHostLine] accepts,
    and the empty string when there is none. *)
Definition lastHostValue (headers : list string) : string :=
  match List.last (List.map Some (List.filter isHostLine headers)) None with
  | Some line => TrimSpace (drop 5 line)
  | None => ""
  end.

(** A header line as the loop keeps it: one line feed, at the end, and
    not blank. *)
Definition isHeaderLine (line : string) : Prop :=
  (exists body, line = body +:+ String LF "" /\ IndexByte body LF = None)
  /\ line <> CRLF /\ line <> String LF "".

(** What ends the header block: a blank line, or the end of the input in
    the middle of a line. *)
Definition isTerminator (term rest : string) : Prop :=
  term = CRLF \/ term = String LF "" \/ (IndexByte term LF = None /\ rest = "").

(** The Host value the loop is left with after [lines], from [hostHeader]. *)
Definition foldHost (hostHeader : string) (lines : list string) : string :=
  fold_left (fun hh line => if isHostLine line then TrimSpace (drop 5 line) else hh)
            lines hostHeader.

(** The request line [handleHTTP] writes to the target. *)
Definition forwardedRequestLine (method rawURI httpVersion : string) : string :=
  method +:+ " " +:+ cleanRequestURI rawURI +:+ " " +:+ httpVersion +:+ CRLF.

(** *** More sample connections *)

(** A GET in origin form with two Host lines and a body. *)
Definition twoHosts : string :=
  requestBytes ["GET /p?q=1 HTTP/1.1"; "Host: first.example"; "Accept: */*";
                "hOsT:  second.example:8080 "] "body".

Definition twoHostsHeaders : list string :=
  ["Host: first.example" +:+ CRLF; "Accept: */*" +:+ CRLF;
   "hOsT:  second.example:8080 " +:+ CRLF].

(** *** Words for the blocklist file, the request line and the trace *)


(** No byte of [s] is white space. *)
Definition noSpace (s : string) : bool := allBytes (fun c => negb (isSpace c)) s.

(** A token of a request line: not empty, and without white space. *)
Definition isToken (s : string) : Prop := s <> "" /\ noSpace s = true.

(** A host of letters, digits, dots and hyphens: a name or an IPv4
    address, without port or user information. *)
Definition plainHostByte (c : ascii) : bool := isAlpha c || isDigit c || oneOf "-." c.

Definition plainHost (h : string) : bool := allBytes plainHostByte h.

(** What may follow the slash after the host in an absolute URI when it
    is a path and nothing more: no control byte, no query, no fragment,
    and every percent sign opening an escape of two hex digits. *)
Definition plainPathByte (c : ascii) : bool :=
  negb ((code c <? 32)%nat || (code c =? 127)%nat)
  && negb (byte_eqb c "?") && negb (byte_eqb c "#").

Definition plainPath (p : string) : bool :=
  allBytes plainPathByte p && unescapeValid p encodePath.

(** All the log records, the relays entered, and the closes of a trace. *)
Definition logRecords (t : list Event) : list LogRecord :=
  flat_map (fun e => match e with EvLog r => [r] | _ => [] end) t.

Definition relays (t : list Event) : list (option string) :=
  flat_map (fun e => match e with EvRelay src => [src] | _ => [] end) t.

Definition clientCloses (t : list Event) : nat :=
  List.length (flat_map (fun e => match e with EvClientClose => [e] | _ => [] end) t).

Definition targetCloses (t : list Event) : nat :=
  List.length (flat_map (fun e => match e with EvTargetClose => [e] | _ => [] end) t).

(** The reply that opens a tunnel. *)
Definition tunnelReply : string :=
  "HTTP/1.1 200 Connection Established" +:+ CRLF +:+ CRLF.

End Proxy.

(** ** The two-way relay

    The tail of [handleHTTPS] and of [handleHTTP]:

      wg.Add(2); go copy(target <- client); go copy(client <- target); wg.Wait()

    as a transition system over the three goroutines, any interleaving
    allowed.  A copy task is

      defer wg.Done(); io.Copy(dst, src); tcp.CloseWrite()

    where the half-close is made when [dst] is a TCP connection. *)

Module Relay.
Import Proxy.

(** How the reads of a source end once its bytes are gone. *)
Inductive ReadEnd := AtEOF | ReadError.

Inductive TaskPC := NotStarted | Copying | Copied | Exiting | Finished.

Record Task := mkTask {
  pc : TaskPC;
  pending : list string;   (* what the source still delivers, read by read *)
  srcEnd : ReadEnd;        (* what follows the last read *)
  written : string;        (* the bytes written to the destination *)
  copyErr : bool;          (* io.Copy returned on a read or write error *)
  dstTCP : bool;           (* the destination is a TCP connection *)
  dstWriteClosed : bool    (* CloseWrite was called on the destination *)
}.

Inductive MainPC := AtAdd | AtGo1 | AtGo2 | AtWait | Returned.

Record State := mkState {
  main : MainPC;
  wg : nat;                (* the WaitGroup counter *)
  toTarget : Task;         (* client -> target *)
  toClient : Task          (* target -> client *)
}.

Definition setPc (t : Task) (p : TaskPC) : Task :=
  mkTask p (pending t) (srcEnd t) (written t) (copyErr t) (dstTCP t) (dstWriteClosed t).

(** The steps of a task that leave the WaitGroup alone. *)
Inductive task_step : Task -> Task -> Prop :=
| copy_chunk t chunk rest :
    pc t = Copying -> pending t = chunk :: rest ->
    task_step t (mkTask Copying rest (srcEnd t) (written t +:+ chunk)
                        (copyErr t) (dstTCP t) (dstWriteClosed t))
| copy_write_error t chunk rest :
    pc t = Copying -> pending t = chunk :: rest ->
    task_step t (mkTask Copied rest (srcEnd t) (written t)
                        true (dstTCP t) (dstWriteClosed t))
| copy_eof t :
    pc t = Copying -> pending t = [] -> srcEnd t = AtEOF ->
    task_step t (setPc t Copied)
| copy_read_error t :
    pc t = Copying -> pending t = [] -> srcEnd t = ReadError ->
    task_step t (mkTask Copied [] (srcEnd t) (written t)
                        true (dstTCP t) (dstWriteClosed t))
| close_write t :
    pc t = Copied ->
    task_step t (mkTask Exiting (pending t) (srcEnd t) (written t)
                        (copyErr t) (dstTCP t) (dstTCP t)).

Inductive step : State -> State -> Prop :=
| main_add s :
    main s = AtAdd ->
    step s (mkState AtGo1 (wg s + 2) (toTarget s) (toClient s))
| main_go1 s :
    main s = AtGo1 ->
    step s (mkState AtGo2 (wg s) (setPc (toTarget s) Copying) (toClient s))
| main_go2 s :
    main s = AtGo2 ->
    step s (mkState AtWait (wg s) (toTarget s) (setPc (toClient s) Copying))
| main_wait s :
    main s = AtWait -> wg s = 0 ->
    step s (mkState Returned (wg s) (toTarget s) (toClient s))
| toTarget_step s t' :
    task_step (toTarget s) t' ->
    step s (mkState (main s) (wg s) t' (toClient s))
| toTarget_done s :
    pc (toTarget s) = Exiting ->
    step s (mkState (main s) (wg s - 1) (setPc (toTarget s) Finished) (toClient s))
| toClient_step s t' :
    task_step (toClient s) t' ->
    step s (mkState (main s) (wg s) (toTarget s) t')
| toClient_done s :
    pc (toClient s) = Exiting ->
    step s (mkState (main s) (wg s - 1) (toTarget s) (setPc (toClient s) Finished)).

Inductive steps : State -> State -> Prop :=
| steps_refl s : steps s s
| steps_snoc s1 s2 s3 : steps s1 s2 -> step s2 s3 -> steps s1 s3.

Definition newTask (src : list string) (e : ReadEnd) (tcp : bool) : Task :=
  mkTask NotStarted src e "" false tcp false.

(** The relay as the handler enters it. *)
Definition init (fromClient : list string) (clientEnd : ReadEnd)
    (fromTarget : list string) (targetEnd : ReadEnd)
    (clientTCP targetTCP : bool) : State :=
  mkState AtAdd 0 (newTask fromClient clientEnd targetTCP)
          (newTask fromTarget targetEnd clientTCP).

(** *** A scheduler

    The same steps as a function, so that a run can be computed from the
    list of choices made. *)

Inductive Direction := ToTarget | ToClient.

Inductive Action :=
| Main                                     (* the handler's next statement *)
| Chunk (d : Direction) (writeOk : bool)   (* one read and write of io.Copy *)
| EndOfSource (d : Direction)              (* the read that ends io.Copy *)
| CloseWrite (d : Direction)
| Done (d : Direction).                    (* the deferred wg.Done() *)

Definition execChunk (writeOk : bool) (t : Task) : option Task :=
  match pc t, pending t with
  | Copying, chunk :: rest =>
      if writeOk
      then Some (mkTask Copying rest (srcEnd t) (written t +:+ chunk)
                        (copyErr t) (dstTCP t) (dstWriteClosed t))
      else Some (mkTask Copied rest (srcEnd t) (written t)
                        true (dstTCP t) (dstWriteClosed t))
  | _, _ => None
  end.

Definition execEnd (t : Task) : option Task :=
  match pc t, pending t with
  | Copying, [] =>
      match srcEnd t with
      | AtEOF => Some (setPc t Copied)
      | ReadError => Some (mkTask Copied [] (srcEnd t) (written t)
                                  true (dstTCP t) (dstWriteClosed t))
      end
  | _, _ => None
  end.

Definition execClose (t : Task) : option Task :=
  match pc t with
  | Copied => Some (mkTask Exiting (pending t) (srcEnd t) (written t)
                           (copyErr t) (dstTCP t) (dstTCP t))
  | _ => None
  end.

Definition task (d : Direction) (s : State) : Task :=
  match d with ToTarget => toTarget s | ToClient => toClient s end.

Definition setTask (d : Direction) (s : State) (t : Task) : State :=
  match d with
  | ToTarget => mkState (main s) (wg s) t (toClient s)
  | ToClient => mkState (main s) (wg s) (toTarget s) t
  end.

Definition exec (a : Action) (s : State) : option State :=
  match a with
  | Main =>
      match main s with
      | AtAdd => Some (mkState AtGo1 (wg s + 2) (toTarget s) (toClient s))
      | AtGo1 => Some (mkState AtGo2 (wg s) (setPc (toTarget s) Copying) (toClient s))
      | AtGo2 => Some (mkState AtWait (wg s) (toTarget s) (setPc (toClient s) Copying))
      | AtWait =>
          if (wg s =? 0)%nat
          then Some (mkState Returned (wg s) (toTarget s) (toClient s))
          else None
      | Returned => None
      end
  | Chunk d ok => option_map (setTask d s) (execChunk ok (task d s))
  | EndOfSource d => option_map (setTask d s) (execEnd (task d s))
  | CloseWrite d => option_map (setTask d s) (execClose (task d s))
  | Done d =>
      match pc (task d s) with
      | Exiting =>
          Some (match d with
                | ToTarget => mkState (main s) (wg s - 1)
                                      (setPc (toTarget s) Finished) (toClient s)
                | ToClient => mkState (main s) (wg s - 1)
                                      (toTarget s) (setPc (toClient s) Finished)
                end)
      | _ => None
      end
  end.

Fixpoint run (schedule : list Action) (s : State) : option State :=
  match schedule with
  | [] => Some s
  | a :: rest =>
      match exec a s with
      | Some s' => run rest s'
      | None => None
      end
  end.

(** A task to its end, every write succeeding. *)
Definition drain (d : Direction) (src : list string) : list Action :=
  List.map (fun _ => Chunk d true) src ++ [EndOfSource d; CloseWrite d; Done d].

(** The handler and both tasks to their ends, the first of the two
    directions given being the first to finish. *)
Definition fullRun (first : Direction) (fromClient fromTarget : list string) : list Action :=
  [Main; Main; Main]
  ++ match first with
     | ToTarget => drain ToTarget fromClient ++ drain ToClient fromTarget
     | ToClient => drain ToClient fromTarget ++ drain ToTarget fromClient
     end
  ++ [Main].

(** A task that has not finished still holds the WaitGroup by one. *)
Definition live (t : Task) : nat :=
  match pc t with Finished => 0 | _ => 1 end.

(** *** Invariants *)

(** What holds of a copy task all along: the bytes written are a prefix
    of the source's, all of them once a copy without error has returned;
    the half-close comes after the copy and only on a TCP destination. *)
Definition taskInv (src : list string) (tcp : bool) (t : Task) : Prop :=
  dstTCP t = tcp
  /\ (exists rest, concatLines src = written t +:+ rest)
  /\ (copyErr t = false -> written t +:+ concatLines (pending t) = concatLines src)
  /\ match pc t with
     | NotStarted | Copying => copyErr t = false /\ dstWriteClosed t = false
     | Copied => dstWriteClosed t = false /\ (copyErr t = false -> pending t = [])
     | Exiting | Finished =>
         dstWriteClosed t = tcp /\ (copyErr t = false -> pending t = [])
     end.

(** The WaitGroup counts the tasks still running. *)
Definition stateInv (fromClient fromTarget : list string) (clientTCP targetTCP : bool)
    (s : State) : Prop :=
  taskInv fromClient targetTCP (toTarget s)
  /\ taskInv fromTarget clientTCP (toClient s)
  /\ match main s with
     | AtAdd => wg s = 0 /\ pc (toTarget s) = NotStarted /\ pc (toClient s) = NotStarted
     | AtGo1 => wg s = 2 /\ pc (toTarget s) = NotStarted /\ pc (toClient s) = NotStarted
     | AtGo2 => wg s = live (toTarget s) + 1
                /\ pc (toTarget s) <> NotStarted /\ pc (toClient s) = NotStarted
     | AtWait => wg s = live (toTarget s) + live (toClient s)
                 /\ pc (toTarget s) <> NotStarted /\ pc (toClient s) <> NotStarted
     | Returned => wg s = 0 /\ wg s = live (toTarget s) + live (toClient s)
                   /\ pc (toTarget s) <> NotStarted /\ pc (toClient s) <> NotStarted
     end.

(** [io.Copy] has returned in this task. *)
Definition copyReturned (t : Task) : Prop :=
  pc t = Copied \/ pc t = Exiting \/ pc t = Finished.

(** *** Counting steps *)





End Relay.

Import Str Net Url Proxy.

(** * Properties *)

(** ** Strings *)

Section StringFacts.

Lemma byte_eqb_true a b : byte_eqb a b = true <-> a = b.
Proof. apply Ascii.eqb_eq. Qed.

Lemma byte_eqb_false a b : byte_eqb a b = false <-> a <> b.
Proof. apply Ascii.eqb_neq. Qed.

Lemma append_nil_r s : s +:+ "" = s.
Proof. induction s as [|c s IH]; simpl; [reflexivity | now rewrite IH]. Qed.

Lemma append_assoc s t u : (s +:+ t) +:+ u = s +:+ (t +:+ u).
Proof. induction s as [|c s IH]; simpl; [reflexivity | now rewrite IH]. Qed.

Lemma append_length s t : String.length (s +:+ t) = String.length s + String.length t.
Proof. induction s as [|c s IH]; simpl; [reflexivity | now rewrite IH]. Qed.

Lemma append_eq_nil s t : s +:+ t = "" -> s = "" /\ t = "".
Proof. destruct s; simpl; [auto | discriminate]. Qed.

Lemma Split_nonempty s sep : Split s sep <> [].
Proof.
  destruct s as [|c s]; simpl; [discriminate |].
  destruct (byte_eqb c sep); [discriminate |].
  destruct (Split s sep); discriminate.
Qed.

Lemma Split_length_pos s sep : 1 <= List.length (Split s sep).
Proof.
  pose proof (Split_nonempty s sep) as H.
  destruct (Split s sep); [congruence | simpl; lia].
Qed.

(** Joining the parts gives the string back. *)
Lemma Join_Split s sep : Join (Split s sep) (String sep "") = s.
Proof.
  induction s as [|c s IH]; simpl; [reflexivity |].
  destruct (byte_eqb c sep) eqn:E.
  - apply byte_eqb_true in E; subst c.
    pose proof (Split_nonempty s sep) as Hne.
    destruct (Split s sep) as [|p ps] eqn:Es; [congruence |].
    rewrite <- IH. reflexivity.
  - pose proof (Split_nonempty s sep) as Hne.
    destruct (Split s sep) as [|p ps] eqn:Es; [congruence |].
    rewrite <- IH. destruct ps; reflexivity.
Qed.

(** The parts from the [i]-th on, [i >= 1], spell what follows some
    separator of the string. *)
Lemma Split_skipn_suffix sep s : forall i,
  1 <= i < List.length (Split s sep) ->
  exists p, s = p +:+ String sep (Join (List.skipn i (Split s sep)) (String sep "")).
Proof.
  induction s as [|c s IH]; intros i Hi; simpl in *; [lia |].
  destruct (byte_eqb c sep) eqn:E.
  - apply byte_eqb_true in E; subst c. simpl in Hi.
    destruct i as [|i]; [lia |]. simpl.
    destruct i as [|i].
    + exists "". rewrite drop_0, Join_Split. reflexivity.
    + destruct (IH (S i)) as [p Hp]; [lia |].
      exists (String sep p). simpl in Hp |- *. congruence.
  - pose proof (Split_nonempty s sep) as Hne.
    destruct (Split s sep) as [|q qs] eqn:Es; [congruence |].
    destruct i as [|i]; [lia |]. simpl in *.
    destruct (IH (S i)) as [p Hp]; [lia |].
    exists (String c p). simpl in Hp |- *. congruence.
Qed.

(** Conversely, what follows a separator is spelled by the parts from
    some index [i >= 1] on. *)
Lemma suffix_Split_skipn sep t : forall p s,
  s = p +:+ String sep t ->
  exists i, 1 <= i < List.length (Split s sep)
            /\ Join (List.skipn i (Split s sep)) (String sep "") = t.
Proof.
  induction p as [|c p IH]; intros s ->; simpl.
  - rewrite Ascii.eqb_refl. exists 1. simpl.
    pose proof (Split_length_pos t sep). split; [lia | apply Join_Split].
  - destruct (IH _ eq_refl) as (i & Hi & Hj).
    destruct (byte_eqb c sep) eqn:E.
    + exists (S i). simpl. split; [lia | exact Hj].
    + destruct (Split (p +:+ String sep t) sep) as [|q qs] eqn:Es; [simpl in Hi; lia |].
      exists i. destruct i as [|i]; [lia |]. simpl in *. split; [lia | exact Hj].
Qed.

End StringFacts.

(** ** Splitting host and port *)

Section NetFacts.


Lemma LastIndexByte_None s c : IndexByte s c = None -> LastIndexByte s c = None.
Proof.
  induction s as [|x s IH]; simpl; [reflexivity |].
  destruct (byte_eqb x c); [discriminate |].
  destruct (IndexByte s c); [discriminate |].
  intros _. now rewrite IH.
Qed.

Lemma succ_index_None (o : option nat) :
  match o with Some i => Some (S i) | None => None end = None <-> o = None.
Proof. destruct o; split; congruence. Qed.

Lemma IndexByte_app_None s t c :
  IndexByte (s +:+ t) c = None <-> IndexByte s c = None /\ IndexByte t c = None.
Proof.
  induction s as [|x s IH]; simpl; [tauto |].
  destruct (byte_eqb x c).
  - split; [discriminate | intros [? _]; discriminate].
  - now rewrite !succ_index_None.
Qed.


Lemma take_app s t : take (String.length s) (s +:+ t) = s.
Proof. induction s as [|x s IH]; simpl; [now destruct t | now rewrite IH]. Qed.

Lemma drop_app s t : drop (String.length s) (s +:+ t) = t.
Proof. induction s as [|x s IH]; simpl; [reflexivity | exact IH]. Qed.


Lemma SplitHostPort_no_colon s : IndexByte s ":" = None -> SplitHostPort s = None.
Proof.
  intros H. unfold SplitHostPort. now rewrite (LastIndexByte_None _ _ H).
Qed.

Lemma lower_byte_colon x : byte_eqb (lower_byte x) ":" = byte_eqb x ":".
Proof. destruct x as [[] [] [] [] [] [] [] []]; reflexivity. Qed.



Lemma IndexByte_ToLower s c :
  (forall x, byte_eqb (lower_byte x) c = byte_eqb x c) ->
  IndexByte (ToLower s) c = IndexByte s c.
Proof.
  intros Hc. induction s as [|x s IH]; simpl; [reflexivity |].
  rewrite Hc. unfold ToLower in IH. now rewrite IH.
Qed.

Lemma ToLower_app s t : ToLower (s +:+ t) = ToLower s +:+ ToLower t.
Proof.
  unfold ToLower. induction s as [|x s IH]; simpl; [reflexivity | now rewrite IH].
Qed.


(** Without a colon there is no port to strip. *)
Lemma normalizeHost_no_port host :
  IndexByte host ":" = None -> normalizeHost host = ToLower host.
Proof.
  intros Hc. unfold normalizeHost.
  rewrite SplitHostPort_no_colon; [reflexivity |].
  now rewrite IndexByte_ToLower by apply lower_byte_colon.
Qed.

(** [net.SplitHostPort] on an IPv6 literal, too many colons, an empty
    port, and brackets out of place. *)
Example SplitHostPort_samples :
  SplitHostPort "[::1]:80" = Some ("::1", "80")
  /\ SplitHostPort "example.com:443" = Some ("example.com", "443")
  /\ SplitHostPort "example.com:" = Some ("example.com", "")
  /\ SplitHostPort "example.com" = None
  /\ SplitHostPort "a:b:80" = None
  /\ SplitHostPort "[::1]" = None
  /\ SplitHostPort "[::1]x:80" = None
  /\ SplitHostPort "a[b:80" = None
  /\ SplitHostPort "" = None.
Proof. repeat split. Qed.

(** [url.Parse] on the shapes a proxy request line can carry. *)
Example Parse_samples :
  Parse "http://a.com/x?y=1" = Some (mkURL "http" "" "a.com" "/x" false "y=1" "")
  /\ Parse "http://a.com" = Some (mkURL "http" "" "a.com" "" false "" "")
  /\ Parse "HTTP://A.com:8080/p?" = Some (mkURL "http" "" "A.com:8080" "/p" true "" "")
  /\ Parse "https://u:p@[::1]:443/a%20b#f"
     = Some (mkURL "https" "" "[::1]:443" "/a b" false "" "f")
  /\ Parse "http://a.com:x/" = None
  /\ Parse "http://a b/" = None
  /\ Parse "http://a.com/%zz" = None
  /\ Parse "mailto:someone" = Some (mkURL "mailto" "someone" "" "" false "" "")
  /\ Hostname (mkURL "https" "" "[::1]:443" "/" false "" "") = "::1"
  /\ Port (mkURL "https" "" "[::1]:443" "/" false "" "") = "443"
  /\ Port (mkURL "http" "" "a.com:" "/" false "" "") = "".
Proof. repeat split. Qed.

End NetFacts.

(** ** The blocklist matcher *)

Section Blocklist.

Implicit Types (blocklist : gmap string bool) (host d : string).

Lemma checkParents_true blocklist parts : forall n i,
  checkParents blocklist parts i n = true <->
  exists k, i <= k < i + n
            /\ lookupBlock blocklist (Join (List.skipn k parts) ".") = true.
Proof.
  induction n as [|n IH]; intros i; simpl.
  - split; [discriminate | intros (k & Hk & _); lia].
  - destruct (lookupBlock blocklist (Join (List.skipn i parts) ".")) eqn:E.
    + split; [| reflexivity]. intros _. exists i. split; [lia | exact E].
    + rewrite IH. split; intros (k & Hk & Hl).
      * exists k. split; [lia | exact Hl].
      * exists k. split; [| exact Hl].
        destruct (Nat.eq_dec k i) as [-> | Hne]; [congruence | lia].
Qed.


(** The matcher on a normalised host, for any blocklist: an exact hit, or
    a hit on what follows one of the host's dots. *)
Lemma isBlocked_spec host blocklist :
  isBlocked host blocklist = true <->
  normalizeHost host <> ""
  /\ (lookupBlock blocklist (normalizeHost host) = true
      \/ exists p t, normalizeHost host = p +:+ "." +:+ t
                     /\ lookupBlock blocklist t = true).
Proof.
  unfold isBlocked. set (h := normalizeHost host).
  destruct (String.eqb_spec h "") as [E | E].
  - split; [discriminate | intros [Hne _]; congruence].
  - destruct (lookupBlock blocklist h) eqn:El.
    + split; [intros _; split; [exact E | now left] | reflexivity].
    + rewrite checkParents_true. split.
      * intros (k & Hk & Hl). split; [exact E |]. right.
        destruct (Split_skipn_suffix "." h k) as [p Hp]; [lia |].
        exists p, (Join (List.skipn k (Split h ".")) "."). split; assumption.
      * intros [_ [Hl | (p & t & Hp & Hl)]]; [discriminate |].
        destruct (suffix_Split_skipn "." t p h Hp) as (i & Hi & Hj).
        exists i. split; [lia |]. now rewrite Hj.
Qed.

Lemma map_bytes_nil f s : map_bytes f s = "" -> s = "".
Proof. destruct s; simpl; [reflexivity | discriminate]. Qed.

(** [loadBlockedDomains] never enters the empty string as a key. *)
Lemma loadBlockedDomains_nonempty lines :
  loadBlockedDomains lines !! "" = None.
Proof.
  unfold loadBlockedDomains.
  assert (G : forall (acc : gmap string bool), acc !! "" = None ->
            fold_left
              (fun blocklist line =>
                 let domain := TrimSpace line in
                 if negb (String.eqb domain "") && negb (HasPrefix domain "#")
                 then <[ToLower domain := true]> blocklist
                 else blocklist) lines acc !! "" = None).
  { induction lines as [|l ls IH]; intros acc Hacc; simpl; [exact Hacc |].
    apply IH.
    destruct (String.eqb_spec (TrimSpace l) "") as [E | E]; simpl; [exact Hacc |].
    destruct (HasPrefix (TrimSpace l) "#"); simpl; [exact Hacc |].
    rewrite lookup_insert_ne; [exact Hacc |].
    intros Hl. apply map_bytes_nil in Hl. congruence. }
  apply G. apply lookup_empty.
Qed.

(** So the domain of a loaded blocklist with a single entry is not empty. *)
Lemma loaded_single_domain lines d :
  loadBlockedDomains lines = {[ d := true ]} -> d <> "".
Proof.
  intros H ->. pose proof (loadBlockedDomains_nonempty lines) as Hn.
  rewrite H, lookup_singleton_eq in Hn. discriminate.
Qed.



(** C6. An empty host is never blocked: whatever the blocklist, also one
    with the empty string as a key, [isBlocked] is false when the host,
    lower-cased and with its port stripped, is empty. *)
Theorem isBlocked_empty_host host blocklist :
  normalizeHost host = "" -> isBlocked host blocklist = false.
Proof.
  intros H. unfold isBlocked. rewrite H. reflexivity.
Qed.

(** The theorem at the port-only host [":80"], against a blocklist that
    has the empty string as a key. *)
Lemma isBlocked_empty_host_witness :
  normalizeHost ":80" = ""
  /\ isBlocked ":80" {[ "" := true ]} = false.
Proof.
  split; [reflexivity |].
  apply (isBlocked_empty_host ":80" {[ "" := true ]}). reflexivity.
Defined.

End Blocklist.

(** ** Host resolution *)

Section Resolution.

(** *** The scheme [url.Parse] reports *)









Lemma method_neq_eqb method : method <> "CONNECT" -> String.eqb method "CONNECT" = false.
Proof. intros H. now apply String.eqb_neq. Qed.






End Resolution.

(** ** The request parser *)

Section Parser.

Lemma ReadString_ok r delim line rest :
  ReadString r delim = (line, false, rest) ->
  r = line +:+ rest
  /\ exists body, line = body +:+ String delim "" /\ IndexByte body delim = None.
Proof.
  revert line rest. induction r as [|c r IH]; intros line rest; simpl.
  - discriminate.
  - destruct (byte_eqb c delim) eqn:E.
    + intros [= <- <-]. apply byte_eqb_true in E; subst c.
      split; [reflexivity |]. now exists "".
    + destruct (ReadString r delim) as [[l e] rs].
      intros [= <- -> <-].
      destruct (IH l rs eq_refl) as (-> & body & -> & Hb).
      split; [reflexivity |]. exists (String c body). split; [reflexivity |].
      simpl. now rewrite E, Hb.
Qed.

Lemma ReadString_err r delim line rest :
  ReadString r delim = (line, true, rest) ->
  line = r /\ rest = "" /\ IndexByte r delim = None.
Proof.
  revert line rest. induction r as [|c r IH]; intros line rest; simpl.
  - now intros [= <- <-].
  - destruct (byte_eqb c delim) eqn:E; [discriminate |].
    destruct (ReadString r delim) as [[l e] rs].
    intros [= <- -> <-].
    destruct (IH l rs eq_refl) as (-> & -> & Hn).
    now rewrite Hn.
Qed.


Lemma ReadString_shorter r delim line rest :
  ReadString r delim = (line, false, rest) -> String.length rest < String.length r.
Proof.
  intros H. apply ReadString_ok in H as (-> & body & -> & _).
  rewrite !append_length. simpl. lia.
Qed.

(** The header loop ends within the fuel [HandleConnection] gives it. *)
Lemma readHeaders_total : forall fuel reader headers hostHeader,
  String.length reader < fuel ->
  exists res, readHeaders fuel reader headers hostHeader = Some res.
Proof.
  induction fuel as [|fuel IH]; intros reader headers hostHeader Hlen; [lia |].
  simpl. destruct (ReadString reader LF) as [[line err] rest] eqn:E.
  destruct err; simpl; [eauto |].
  destruct (String.eqb line CRLF); simpl; [eauto |].
  destruct (String.eqb line (String LF "")); simpl; [eauto |].
  apply IH. apply ReadString_shorter in E. lia.
Qed.

Lemma readRequest_total clientConn : exists p, readRequest clientConn = Some p.
Proof.
  unfold readRequest.
  destruct (ReadString clientConn LF) as [[line err] reader].
  destruct err; [eauto |].
  destruct (List.length (Fields line) <? 3)%nat; [eauto |].
  destruct (readHeaders_total (S (String.length reader)) reader [] "") as [[[hs hh] rd] ->];
    [lia | eauto].
Qed.

(** The handler always comes to an end, with a trace. *)
Lemma HandleConnection_total w clientConn blocklist :
  exists t, HandleConnection w clientConn blocklist = Some t.
Proof.
  unfold HandleConnection.
  destruct (readRequest_total clientConn) as [p ->].
  destruct p as [| | method rawURI httpVersion headers hostHeader reader]; [eauto | eauto |].
  destruct (resolveTarget method rawURI hostHeader) as [targetHost targetPort].
  destruct (isBlocked targetHost blocklist); [eauto |].
  destruct (String.eqb method "CONNECT"); eauto.
Qed.

Lemma last_map_Some {A} (xs : list A) :
  List.last (List.map Some xs) None = None -> xs = [].
Proof.
  induction xs as [|x xs IH]; [reflexivity |]. simpl.
  destruct xs as [|y ys]; [discriminate |]. intros H. specialize (IH H). discriminate.
Qed.

Lemma foldHost_last lines : forall hostHeader,
  foldHost hostHeader lines
  = match List.last (List.map Some (List.filter isHostLine lines)) None with
    | Some line => TrimSpace (drop 5 line)
    | None => hostHeader
    end.
Proof.
  induction lines as [|l ls IH]; intros hh; [reflexivity |].
  unfold foldHost in *. simpl. rewrite IH.
  destruct (isHostLine l) eqn:El; [| reflexivity].
  simpl. destruct (List.filter isHostLine ls) as [|x xs] eqn:Ef; [reflexivity |].
  destruct (List.last (List.map Some (x :: xs)) None) eqn:Elast; [reflexivity |].
  apply last_map_Some in Elast. discriminate.
Qed.

(** The header loop, with its accumulators: it adds the header lines of
    the input up to the terminator, and the Host value is folded over
    them. *)
Lemma readHeaders_spec : forall fuel reader headers hostHeader hs hh rest,
  readHeaders fuel reader headers hostHeader = Some (hs, hh, rest) ->
  exists lines term,
    hs = headers ++ lines
    /\ reader = concatLines lines +:+ term +:+ rest
    /\ Forall isHeaderLine lines
    /\ isTerminator term rest
    /\ hh = foldHost hostHeader lines.
Proof.
  induction fuel as [|fuel IH]; intros reader headers hostHeader hs hh rest; [discriminate |].
  simpl. destruct (ReadString reader LF) as [[line err] rd] eqn:E.
  destruct err.
  { simpl. intros [= <- <- <-]. apply ReadString_err in E as (-> & -> & Hn).
    exists [], reader. rewrite app_nil_r. simpl. rewrite append_nil_r.
    repeat split; [constructor | right; right; now split]. }
  simpl. pose proof (ReadString_ok _ _ _ _ E) as (Hr & body & Hl & Hb).
  destruct (String.eqb_spec line CRLF) as [Ec | Ec].
  { simpl. intros [= <- <- <-]. exists [], CRLF. rewrite app_nil_r.
    rewrite Ec in Hr. repeat split; [exact Hr | constructor | now left]. }
  destruct (String.eqb_spec line (String LF "")) as [En | En].
  { simpl. intros [= <- <- <-]. exists [], (String LF ""). rewrite app_nil_r.
    rewrite En in Hr. repeat split; [exact Hr | constructor | right; now left]. }
  simpl. intros H. apply IH in H as (lines & term & -> & Hrd & Hall & Hterm & ->).
  exists (line :: lines), term. repeat split.
  - now rewrite <- List.app_assoc.
  - simpl. rewrite append_assoc, <- Hrd. exact Hr.
  - constructor; [| exact Hall]. repeat split; [now exists body | exact Ec | exact En].
  - exact Hterm.
Qed.

(** What a parsed request says about the client's bytes: the request
    line, then the header lines kept, then the terminator, then what is
    left in the reader. *)
Lemma readRequest_Request clientConn method rawURI httpVersion headers hostHeader reader :
  readRequest clientConn = Some (Request method rawURI httpVersion headers hostHeader reader) ->
  exists requestLine term,
    clientConn = requestLine +:+ concatLines headers +:+ term +:+ reader
    /\ fst (ReadString clientConn LF) = (requestLine, false)
    /\ 3 <= List.length (Fields requestLine)
    /\ method = ToUpper (nth 0 (Fields requestLine) "")
    /\ rawURI = nth 1 (Fields requestLine) ""
    /\ httpVersion = nth 2 (Fields requestLine) ""
    /\ Forall isHeaderLine headers
    /\ isTerminator term reader
    /\ hostHeader = lastHostValue headers.
Proof.
  unfold readRequest.
  destruct (ReadString clientConn LF) as [[line err] rd] eqn:E.
  destruct err; [discriminate |].
  destruct (Nat.ltb_spec (List.length (Fields line)) 3) as [Hlt | Hge]; [discriminate |].
  destruct (readHeaders (S (String.length rd)) rd [] "") as [[[hs hh] rest] |] eqn:Eh;
    [| discriminate].
  intros [= <- <- <- <- <- <-].
  apply readHeaders_spec in Eh as (lines & term & -> & Hrd & Hall & Hterm & ->).
  apply ReadString_ok in E as (-> & _).
  exists line, term. simpl. rewrite <- Hrd.
  repeat split; try assumption.
  unfold lastHostValue. now rewrite foldHost_last.
Qed.

End Parser.

(** ** The connection handler *)

Section Handler.

Variable w : World.
Variable blocklist : gmap string bool.






Lemma HandleConnection_request clientConn method rawURI httpVersion headers hostHeader reader :
  readRequest clientConn = Some (Request method rawURI httpVersion headers hostHeader reader) ->
  HandleConnection w clientConn blocklist
  = let targetHost := fst (resolveTarget method rawURI hostHeader) in
    let targetPort := snd (resolveTarget method rawURI hostHeader) in
    if isBlocked targetHost blocklist then
      Some (logConnection w (remoteAddr w) targetHost method "BLOCKED" "Domain is blocked"
            ++ sendError 403 "Forbidden" ++ [EvClientClose])
    else if String.eqb method "CONNECT" then
      Some (handleHTTPS w targetHost targetPort ++ [EvClientClose])
    else
      Some (handleHTTP w reader method rawURI httpVersion headers targetHost targetPort
            ++ [EvClientClose]).
Proof.
  intros H. unfold HandleConnection. rewrite H.
  destruct (resolveTarget method rawURI hostHeader) as [targetHost targetPort].
  reflexivity.
Qed.






End Handler.

Section Forwarding.

Variable w : World.
Variable blocklist : gmap string bool.








End Forwarding.

(** ** The relay *)

Section RelayFacts.
Import Relay.

Variables (fromClient fromTarget : list string).
Variables (clientEnd targetEnd : ReadEnd).
Variables (clientTCP targetTCP : bool).

Local Abbreviation start :=
  (init fromClient clientEnd fromTarget targetEnd clientTCP targetTCP).
Local Abbreviation inv := (stateInv fromClient fromTarget clientTCP targetTCP).

Lemma taskInv_new src e tcp : taskInv src tcp (newTask src e tcp).
Proof.
  unfold taskInv, newTask. simpl. repeat split; eauto.
Qed.

Lemma taskInv_start src tcp t :
  pc t = NotStarted -> taskInv src tcp t -> taskInv src tcp (setPc t Copying).
Proof.
  unfold taskInv. intros Hpc (Htcp & Hpre & Hall & Hst). rewrite Hpc in Hst.
  simpl. repeat split; tauto.
Qed.

Lemma taskInv_done src tcp t :
  pc t = Exiting -> taskInv src tcp t -> taskInv src tcp (setPc t Finished).
Proof.
  unfold taskInv. intros Hpc (Htcp & Hpre & Hall & Hst). rewrite Hpc in Hst.
  simpl. repeat split; tauto.
Qed.

Lemma taskInv_step src tcp t t' :
  task_step t t' -> taskInv src tcp t ->
  taskInv src tcp t' /\ pc t <> NotStarted /\ pc t' <> NotStarted
  /\ pc t' <> Finished /\ pc t <> Finished.
Proof.
  unfold taskInv.
  intros Hs (Htcp & [rest Hpre] & Hall & Hst).
  destruct Hs as [t chunk rest' Hpc Hp | t chunk rest' Hpc Hp | t Hpc Hp He
                  | t Hpc Hp He | t Hpc];
    rewrite Hpc in Hst; simpl; (split; [| rewrite Hpc; repeat split; discriminate]).
  - destruct Hst as [Herr Hcl]. specialize (Hall Herr). rewrite Hp in Hall. simpl in Hall.
    repeat split; try assumption.
    + exists (concatLines rest'). now rewrite append_assoc.
    + intros _. now rewrite append_assoc.
  - destruct Hst as [Herr Hcl].
    repeat split; try assumption; try discriminate. now exists rest.
  - destruct Hst as [Herr Hcl].
    repeat split; try assumption; [now exists rest | intros _; exact Hp].
  - destruct Hst as [Herr Hcl].
    repeat split; try assumption; try discriminate. now exists rest.
  - destruct Hst as [Hcl Hpend].
    repeat split; try assumption. now exists rest.
Qed.

Lemma live_setPc_Finished t : live (setPc t Finished) = 0.
Proof. reflexivity. Qed.

Lemma live_not_Finished t : pc t <> Finished -> live t = 1.
Proof. unfold live. destruct (pc t); congruence. Qed.

Lemma stateInv_init : inv start.
Proof.
  unfold stateInv, init. simpl.
  split; [apply taskInv_new | split; [apply taskInv_new |]].
  repeat split.
Qed.

Lemma stateInv_step s s' : step s s' -> inv s -> inv s'.
Proof.
  unfold stateInv. intros Hs (HT & HC & Hm).
  destruct Hs as [s Hmain | s Hmain | s Hmain | s Hmain Hwg
                  | s t' Ht | s Hpc | s t' Ht | s Hpc]; simpl.
  - rewrite Hmain in Hm. destruct Hm as (Hwg & H1 & H2).
    split; [exact HT | split; [exact HC |]].
    split; [lia | split; assumption].
  - rewrite Hmain in Hm. destruct Hm as (Hwg & H1 & H2).
    split; [now apply taskInv_start | split; [exact HC |]].
    split; [exact Hwg | split; [discriminate | exact H2]].
  - rewrite Hmain in Hm. destruct Hm as (Hwg & H1 & H2).
    split; [exact HT | split; [now apply taskInv_start |]].
    split; [exact Hwg | split; [exact H1 | discriminate]].
  - rewrite Hmain in Hm. destruct Hm as (Hwg' & H1 & H2).
    split; [exact HT | split; [exact HC |]].
    split; [exact Hwg | split; [congruence | split; assumption]].
  - destruct (taskInv_step _ _ _ _ Ht HT) as (HT' & Hns & Hns' & Hnf' & Hnf).
    split; [exact HT' | split; [exact HC |]].
    rewrite (live_not_Finished _ Hnf) in Hm. rewrite (live_not_Finished _ Hnf').
    destruct (main s); intuition congruence.
  - split; [now apply taskInv_done | split; [exact HC |]].
    assert (Hl : live (toTarget s) = 1) by (unfold live; now rewrite Hpc).
    rewrite Hl in Hm. rewrite ?live_setPc_Finished.
    destruct (main s).
    + destruct Hm as (_ & H1 & _). congruence.
    + destruct Hm as (_ & H1 & _). congruence.
    + destruct Hm as (Hwg & H1 & H2).
      split; [lia | split; [discriminate | exact H2]].
    + destruct Hm as (Hwg & H1 & H2).
      split; [lia | split; [discriminate | exact H2]].
    + destruct Hm as (Hz & Hwg & H1 & H2). lia.
  - destruct (taskInv_step _ _ _ _ Ht HC) as (HC' & Hns & Hns' & Hnf' & Hnf).
    split; [exact HT | split; [exact HC' |]].
    rewrite (live_not_Finished _ Hnf) in Hm. rewrite (live_not_Finished _ Hnf').
    destruct (main s); intuition congruence.
  - split; [exact HT | split; [now apply taskInv_done |]].
    assert (Hl : live (toClient s) = 1) by (unfold live; now rewrite Hpc).
    rewrite Hl in Hm. rewrite ?live_setPc_Finished.
    destruct (main s).
    + destruct Hm as (_ & _ & H2). congruence.
    + destruct Hm as (_ & _ & H2). congruence.
    + destruct Hm as (_ & _ & H2). congruence.
    + destruct Hm as (Hwg & H1 & H2).
      split; [lia | split; [exact H1 | discriminate]].
    + destruct Hm as (Hz & Hwg & H1 & H2). lia.
Qed.

Lemma stateInv_steps s : steps start s -> inv s.
Proof.
  intros H. remember start as s0 eqn:E.
  induction H as [| s1 s2 s3 _ IH Hs]; [subst; apply stateInv_init |].
  eapply stateInv_step; [exact Hs | now apply IH].
Qed.

End RelayFacts.

Section RelayRuns.
Import Relay.

Lemma steps_trans s1 s2 s3 : steps s1 s2 -> steps s2 s3 -> steps s1 s3.
Proof.
  intros H12 H23. induction H23 as [| s2 s3 s4 _ IH Hs]; [exact H12 |].
  eapply steps_snoc; [now apply IH | exact Hs].
Qed.

Lemma execChunk_step ok t t' : execChunk ok t = Some t' -> task_step t t'.
Proof.
  unfold execChunk. destruct (pc t) eqn:Hpc; try discriminate.
  destruct (pending t) as [|chunk rest] eqn:Hp; [discriminate |].
  destruct ok; intros [= <-].
  - now apply (copy_chunk t chunk rest).
  - now apply (copy_write_error t chunk rest).
Qed.

Lemma execEnd_step t t' : execEnd t = Some t' -> task_step t t'.
Proof.
  unfold execEnd. destruct (pc t) eqn:Hpc; try discriminate.
  destruct (pending t) eqn:Hp; [| discriminate].
  destruct (srcEnd t) eqn:He; intros [= <-].
  - now apply copy_eof.
  - rewrite <- He. now apply copy_read_error.
Qed.

Lemma execClose_step t t' : execClose t = Some t' -> task_step t t'.
Proof.
  unfold execClose. destruct (pc t) eqn:Hpc; try discriminate.
  intros [= <-]. now apply close_write.
Qed.

Lemma setTask_step d s t' : task_step (task d s) t' -> step s (setTask d s t').
Proof.
  destruct d; simpl; intros H; [now apply toTarget_step | now apply toClient_step].
Qed.

(** Every move of the scheduler is a step of the relay. *)
Lemma exec_step a s s' : exec a s = Some s' -> step s s'.
Proof.
  destruct a as [| d ok | d | d | d]; simpl.
  - destruct (main s) eqn:Hm; try discriminate.
    + intros [= <-]. now apply main_add.
    + intros [= <-]. now apply main_go1.
    + intros [= <-]. now apply main_go2.
    + destruct (Nat.eqb_spec (wg s) 0) as [Hz | Hz]; [| discriminate].
      intros [= <-]. now apply main_wait.
  - destruct (execChunk ok (task d s)) as [t' |] eqn:E; [| discriminate].
    intros [= <-]. apply setTask_step. now apply execChunk_step in E.
  - destruct (execEnd (task d s)) as [t' |] eqn:E; [| discriminate].
    intros [= <-]. apply setTask_step. now apply execEnd_step.
  - destruct (execClose (task d s)) as [t' |] eqn:E; [| discriminate].
    intros [= <-]. apply setTask_step. now apply execClose_step.
  - destruct (pc (task d s)) eqn:Hpc; try discriminate.
    intros [= <-]. destruct d; [now apply toTarget_done | now apply toClient_done].
Qed.

Lemma task_step_exec t t' :
  task_step t t' ->
  (exists ok, execChunk ok t = Some t') \/ execEnd t = Some t' \/ execClose t = Some t'.
Proof.
  intros H. destruct H as [t chunk rest Hc Hp | t chunk rest Hc Hp | t Hc Hp He
                           | t Hc Hp He | t Hc].
  - left. exists true. unfold execChunk. now rewrite Hc, Hp.
  - left. exists false. unfold execChunk. now rewrite Hc, Hp.
  - right. left. unfold execEnd. now rewrite Hc, Hp, He.
  - right. left. unfold execEnd. now rewrite Hc, Hp, He.
  - right. right. unfold execClose. now rewrite Hc.
Qed.

(** And every step of the relay is a move the scheduler can make. *)
Lemma step_exec s s' : step s s' -> exists a, exec a s = Some s'.
Proof.
  intros H.
  destruct H as [s Hm | s Hm | s Hm | s Hm Hwg | s t' Ht | s Hpc | s t' Ht | s Hpc].
  - exists Main. simpl. now rewrite Hm.
  - exists Main. simpl. now rewrite Hm.
  - exists Main. simpl. now rewrite Hm.
  - exists Main. simpl. now rewrite Hm, Hwg.
  - destruct (task_step_exec _ _ Ht) as [[ok E] | [E | E]].
    + exists (Chunk ToTarget ok). simpl. now rewrite E.
    + exists (EndOfSource ToTarget). simpl. now rewrite E.
    + exists (CloseWrite ToTarget). simpl. now rewrite E.
  - exists (Done ToTarget). simpl. now rewrite Hpc.
  - destruct (task_step_exec _ _ Ht) as [[ok E] | [E | E]].
    + exists (Chunk ToClient ok). simpl. now rewrite E.
    + exists (EndOfSource ToClient). simpl. now rewrite E.
    + exists (CloseWrite ToClient). simpl. now rewrite E.
  - exists (Done ToClient). simpl. now rewrite Hpc.
Qed.

Lemma run_steps schedule : forall s s', run schedule s = Some s' -> steps s s'.
Proof.
  induction schedule as [|a rest IH]; intros s s'; simpl.
  - intros [= <-]. apply steps_refl.
  - destruct (exec a s) as [s1 |] eqn:E; [| discriminate].
    intros H. apply (steps_trans s s1 s').
    + eapply steps_snoc; [apply steps_refl | now apply exec_step in E].
    + now apply IH.
Qed.

Lemma run_app a b s :
  run (a ++ b) s = match run a s with Some s' => run b s' | None => None end.
Proof.
  revert s. induction a as [|x a IH]; intros s; simpl; [reflexivity |].
  destruct (exec x s); [apply IH | reflexivity].
Qed.

(** Draining a started task brings it to [Finished] and gives back its
    hold on the WaitGroup; the rest of the state stays. *)
Lemma run_chunks d src : forall s,
  pc (task d s) = Copying -> pending (task d s) = src ->
  exists s',
    run (List.map (fun _ => Chunk d true) src) s = Some s'
    /\ pc (task d s') = Copying /\ pending (task d s') = []
    /\ main s' = main s /\ wg s' = wg s
    /\ match d with
       | ToTarget => toClient s' = toClient s
       | ToClient => toTarget s' = toTarget s
       end.
Proof.
  induction src as [|chunk rest IH]; intros s Hpc Hp; simpl.
  - exists s. destruct d; repeat split; assumption.
  - unfold execChunk. rewrite Hpc, Hp. simpl.
    destruct (IH (setTask d s
                    (mkTask Copying rest (srcEnd (task d s))
                            (written (task d s) +:+ chunk) (copyErr (task d s))
                            (dstTCP (task d s)) (dstWriteClosed (task d s)))))
      as (s' & Hrun & H1 & H2 & H3 & H4 & H5);
      [destruct d; reflexivity | destruct d; reflexivity |].
    exists s'. rewrite Hrun. destruct d; simpl in *; repeat split; assumption.
Qed.

Lemma run_drain d src s :
  pc (task d s) = Copying -> pending (task d s) = src ->
  exists s',
    run (drain d src) s = Some s'
    /\ pc (task d s') = Finished
    /\ main s' = main s /\ wg s' = wg s - 1
    /\ match d with
       | ToTarget => toClient s' = toClient s
       | ToClient => toTarget s' = toTarget s
       end.
Proof.
  intros Hpc Hp. unfold drain. rewrite run_app.
  destruct (run_chunks d src s Hpc Hp) as (s1 & -> & H1 & H2 & H3 & H4 & H5).
  simpl. unfold execEnd. rewrite H1, H2.
  destruct d; simpl in *.
  - destruct (srcEnd (toTarget s1)); simpl; eexists;
      (split; [reflexivity |]); simpl; repeat split; try assumption; congruence.
  - destruct (srcEnd (toClient s1)); simpl; eexists;
      (split; [reflexivity |]); simpl; repeat split; try assumption; congruence.
Qed.

(** The relay can always run to the handler's return, in either order of
    the two directions. *)
Lemma relay_can_return first fromClient clientEnd fromTarget targetEnd clientTCP targetTCP :
  exists s,
    run (fullRun first fromClient fromTarget)
        (init fromClient clientEnd fromTarget targetEnd clientTCP targetTCP) = Some s
    /\ main s = Returned.
Proof.
  unfold fullRun. rewrite run_app.
  set (s3 := mkState AtWait 2
               (setPc (newTask fromClient clientEnd targetTCP) Copying)
               (setPc (newTask fromTarget targetEnd clientTCP) Copying)).
  change (run [Main; Main; Main]
              (init fromClient clientEnd fromTarget targetEnd clientTCP targetTCP))
    with (Some s3).
  cbv beta iota. rewrite run_app. destruct first; rewrite run_app.
  - destruct (run_drain ToTarget fromClient s3 eq_refl eq_refl)
      as (s4 & -> & H1 & H2 & H3 & H4).
    destruct (run_drain ToClient fromTarget s4) as (s5 & -> & G1 & G2 & G3 & G4);
      [simpl; now rewrite H4 | simpl; now rewrite H4 |].
    simpl. rewrite G2, H2. simpl. rewrite G3, H3. simpl. eauto.
  - destruct (run_drain ToClient fromTarget s3 eq_refl eq_refl)
      as (s4 & -> & H1 & H2 & H3 & H4).
    destruct (run_drain ToTarget fromClient s4) as (s5 & -> & G1 & G2 & G3 & G4);
      [simpl; now rewrite H4 | simpl; now rewrite H4 |].
    simpl. rewrite G2, H2. simpl. rewrite G3, H3. simpl. eauto.
Qed.

End RelayRuns.

Section RelayBarrier.
Import Relay.

(** C7. In every state the relay can reach, under any interleaving and
    with read or write errors allowed in both directions: a copy has
    returned only on an error or with its source at its end and all its
    bytes written; a half-close is made only by a task whose copy has
    returned; and when the handler has passed [wg.Wait()], both tasks have
    finished, each has half-closed its destination (a TCP connection), and
    each copy that met no error has delivered all the bytes of its
    source. *)
Theorem relay_returns_after_both
    fromClient clientEnd fromTarget targetEnd clientTCP targetTCP s :
  steps (init fromClient clientEnd fromTarget targetEnd clientTCP targetTCP) s ->
  (copyReturned (toTarget s) ->
   copyErr (toTarget s) = true
   \/ (pending (toTarget s) = [] /\ written (toTarget s) = concatLines fromClient))
  /\ (copyReturned (toClient s) ->
      copyErr (toClient s) = true
      \/ (pending (toClient s) = [] /\ written (toClient s) = concatLines fromTarget))
  /\ (dstWriteClosed (toTarget s) = true ->
      pc (toTarget s) = Exiting \/ pc (toTarget s) = Finished)
  /\ (dstWriteClosed (toClient s) = true ->
      pc (toClient s) = Exiting \/ pc (toClient s) = Finished)
  /\ (main s = Returned ->
      pc (toTarget s) = Finished /\ pc (toClient s) = Finished
      /\ dstWriteClosed (toTarget s) = targetTCP
      /\ dstWriteClosed (toClient s) = clientTCP).
Proof.
  intros Hs. apply stateInv_steps in Hs as (HT & HC & Hm).
  assert (Hret : forall src tcp t, taskInv src tcp t -> copyReturned t ->
            copyErr t = true \/ (pending t = [] /\ written t = concatLines src)).
  { intros src tcp t (_ & _ & Hall & Hst) Hr.
    destruct (copyErr t) eqn:He; [now left | right].
    assert (Hp : pending t = []).
    { destruct Hr as [Hr | [Hr | Hr]]; rewrite Hr in Hst; destruct Hst as [_ Hst]; now apply Hst. }
    split; [exact Hp |]. specialize (Hall eq_refl). rewrite Hp in Hall. simpl in Hall.
    now rewrite append_nil_r in Hall. }
  assert (Hclose : forall src tcp t, taskInv src tcp t -> dstWriteClosed t = true ->
            pc t = Exiting \/ pc t = Finished).
  { intros src tcp t (_ & _ & _ & Hst) Hc.
    destruct (pc t); try (destruct Hst as [? ?]; congruence); tauto. }
  split; [now apply (Hret _ _ _ HT) |].
  split; [now apply (Hret _ _ _ HC) |].
  split; [now apply (Hclose _ _ _ HT) |].
  split; [now apply (Hclose _ _ _ HC) |].
  intros Hmain. rewrite Hmain in Hm. destruct Hm as (Hz & Hwg & _ & _).
  rewrite Hz in Hwg. unfold live in Hwg.
  destruct HT as (_ & _ & _ & HTst). destruct HC as (_ & _ & _ & HCst).
  destruct (pc (toTarget s)); try (simpl in Hwg; lia).
  destruct (pc (toClient s)); try (simpl in Hwg; lia).
  destruct HTst as [HTc _]. destruct HCst as [HCc _]. repeat split; assumption.
Qed.

(** The theorem at a run where the target answers in two reads and ends
    first, and the client then sends a body and ends. *)
Lemma relay_returns_after_both_witness :
  exists s,
    steps (init ["body"] AtEOF ["HTTP/1.1 200 OK"; "data"] AtEOF true true) s
    /\ main s = Returned
    /\ pc (toTarget s) = Finished /\ pc (toClient s) = Finished
    /\ dstWriteClosed (toTarget s) = true /\ dstWriteClosed (toClient s) = true
    /\ written (toTarget s) = "body" /\ written (toClient s) = "HTTP/1.1 200 OKdata".
Proof.
  set (final := mkState Returned 0
                  (mkTask Finished [] AtEOF "body" false true true)
                  (mkTask Finished [] AtEOF "HTTP/1.1 200 OKdata" false true true)).
  assert (Hrun : run (fullRun ToClient ["body"] ["HTTP/1.1 200 OK"; "data"])
                     (init ["body"] AtEOF ["HTTP/1.1 200 OK"; "data"] AtEOF true true)
                 = Some final) by reflexivity.
  apply run_steps in Hrun. exists final.
  destruct (relay_returns_after_both _ _ _ _ _ _ _ Hrun) as (_ & _ & _ & _ & Hret).
  destruct (Hret eq_refl) as (H1 & H2 & H3 & H4).
  repeat split; assumption.
Defined.

End RelayBarrier.

(** ** Sample runs of the handler *)

Section Samples.




End Samples.

Section ForwardingSamples.





End ForwardingSamples.

(** * Further properties *)

(** ** The blocklist, for any set of entries *)

Section BlocklistMore.

Implicit Types (blocklist : gmap string bool) (host d : string).









Lemma lookupBlock_weaken blocklist blocklist' key :
  blocklist ⊆ blocklist' ->
  lookupBlock blocklist key = true -> lookupBlock blocklist' key = true.
Proof.
  unfold lookupBlock. intros Hsub H.
  destruct (blocklist !! key) as [b |] eqn:E; [| discriminate].
  simpl in H. subst b.
  now rewrite (lookup_weaken _ _ _ _ E Hsub).
Qed.

(** X2. A host blocked by a blocklist is blocked by every blocklist that
    extends it: adding entries never lets a host through. *)
Theorem isBlocked_monotone host blocklist blocklist' :
  blocklist ⊆ blocklist' ->
  isBlocked host blocklist = true -> isBlocked host blocklist' = true.
Proof.
  intros Hsub. rewrite !isBlocked_spec.
  intros [Hne [Hl | (p & t & Hp & Hl)]]; (split; [exact Hne |]).
  - left. now apply (lookupBlock_weaken blocklist).
  - right. exists p, t. split; [exact Hp | now apply (lookupBlock_weaken blocklist)].
Qed.

(** The theorem at a second entry added to a blocklist of one. *)
Lemma isBlocked_monotone_witness :
  isBlocked "www.example.com" (<[ "badsite.org" := true ]> {[ "example.com" := true ]}) = true.
Proof.
  apply (isBlocked_monotone "www.example.com" {[ "example.com" := true ]}).
  - apply insert_subseteq. reflexivity.
  - reflexivity.
Defined.

Lemma isBlocked_sub_aux sub host blocklist :
  IndexByte sub ":" = None -> IndexByte host ":" = None ->
  isBlocked host blocklist = true ->
  isBlocked (sub +:+ "." +:+ host) blocklist = true.
Proof.
  intros Hs Hh. rewrite !isBlocked_spec.
  assert (Hc : IndexByte (sub +:+ "." +:+ host) ":" = None).
  { apply IndexByte_app_None. split; [exact Hs |].
    apply IndexByte_app_None. split; [reflexivity | exact Hh]. }
  rewrite (normalizeHost_no_port _ Hh), (normalizeHost_no_port _ Hc).
  rewrite (ToLower_app sub), (ToLower_app "." host).
  change (ToLower ".") with ".".
  intros [Hne [Hl | (p & t & Hp & Hl)]].
  - split; [destruct (ToLower sub); discriminate |].
    right. exists (ToLower sub), (ToLower host). split; [reflexivity | exact Hl].
  - split; [destruct (ToLower sub); discriminate |].
    right. exists (ToLower sub +:+ "." +:+ p), t. split; [| exact Hl].
    rewrite Hp. now rewrite !append_assoc.
Qed.

(** X3. Blocking is closed under subdomains: when a host (without a
    port) is blocked, so is every name made by putting labels and a dot
    in front of it. *)
Theorem isBlocked_subdomain sub host blocklist :
  IndexByte sub ":" = None -> IndexByte host ":" = None ->
  isBlocked host blocklist = true ->
  isBlocked (sub +:+ "." +:+ host) blocklist = true.
Proof. exact (isBlocked_sub_aux sub host blocklist). Qed.

(** The theorem at two labels in front of a blocked subdomain. *)
Lemma isBlocked_subdomain_witness :
  isBlocked "a.b.www.example.com" {[ "example.com" := true ]} = true.
Proof.
  apply (isBlocked_subdomain "a.b" "www.example.com" {[ "example.com" := true ]});
    reflexivity.
Defined.













End BlocklistMore.

(** ** Cleaning the request URI *)

Section CleanURI.

Lemma HasPrefix_nil s : HasPrefix s "" = true.
Proof. destruct s; reflexivity. Qed.












End CleanURI.

(** ** The address dialled *)

Section DialAddress.

Lemma take_drop n : forall s, take n s +:+ drop n s = s.
Proof.
  induction n as [|n IH]; intros [|c s]; simpl; try reflexivity. now rewrite IH.
Qed.

Lemma LastIndexByte_drop c : forall s i,
  LastIndexByte s c = Some i -> drop i s = String c (drop (S i) s).
Proof.
  induction s as [|x s IH]; intros i; simpl; [discriminate |].
  destruct (LastIndexByte s c) as [j |] eqn:E.
  - intros [= <-]. simpl. destruct s as [|y s]; [discriminate |]. now apply IH.
  - destruct (byte_eqb x c) eqn:Ex; [| discriminate].
    intros [= <-]. apply byte_eqb_true in Ex. now subst x.
Qed.

Lemma IndexByte_drop c : forall s e,
  IndexByte s c = Some e -> drop e s = String c (drop (S e) s).
Proof.
  induction s as [|x s IH]; intros e; simpl; [discriminate |].
  destruct (byte_eqb x c) eqn:Ex.
  - intros [= <-]. apply byte_eqb_true in Ex. now subst x.
  - destruct (IndexByte s c) as [j |] eqn:E; [| discriminate].
    intros [= <-]. simpl. destruct s as [|y s]; [discriminate |]. now apply IH.
Qed.

(** What [net.SplitHostPort] accepts is host:port, or [host]:port. *)
Lemma SplitHostPort_shape s host port :
  SplitHostPort s = Some (host, port) ->
  (s = host +:+ ":" +:+ port /\ IndexByte host ":" = None)
  \/ s = "[" +:+ host +:+ "]:" +:+ port.
Proof.
  unfold SplitHostPort.
  destruct (LastIndexByte s ":") as [i |] eqn:Ei; [| discriminate].
  pose proof (LastIndexByte_drop _ _ _ Ei) as Hi.
  destruct s as [|c s1]; [discriminate |]. cbn [head].
  destruct (byte_eqb c "[") eqn:Ec.
  - apply byte_eqb_true in Ec; subst c.
    destruct (IndexByte (String "[" s1) "]") as [e |] eqn:Ee; [| discriminate].
    pose proof (IndexByte_drop _ _ _ Ee) as He.
    destruct (e + 1 =? String.length (String "[" s1))%nat; [discriminate |].
    destruct (Nat.eqb_spec (e + 1) i) as [Hei | Hei]; [| discriminate].
    destruct (IndexByte (drop 1 (String "[" s1)) "["); [discriminate |].
    destruct (IndexByte (drop (e + 1) (String "[" s1)) "]"); [discriminate |].
    intros [= <- <-]. right.
    destruct e as [|e];
      [simpl in Ee; destruct (IndexByte s1 "]"); discriminate |].
    rewrite <- (take_drop (S e) (String "[" s1)) at 1.
    rewrite He. replace (S (S e)) with i by lia. rewrite Hi.
    replace (i + 1) with (S i) by lia.
    unfold slice. replace (S e - 1) with e by lia. reflexivity.
  - destruct (IndexByte (take i (String c s1)) ":") eqn:Eh; [discriminate |].
    cbn [drop].
    destruct (IndexByte (String c s1) "["); [discriminate |].
    destruct (IndexByte (String c s1) "]"); [discriminate |].
    intros [= <- <-]. left. split; [| exact Eh].
    rewrite <- (take_drop i (String c s1)) at 1. rewrite Hi.
    replace (i + 1) with (S i) by lia. reflexivity.
Qed.

(** X9. A CONNECT request is dialled at the address it names: when
    [net.SplitHostPort] accepts the target, the address dialled is the
    target itself, but for a bracketed host without a colon, which loses
    its brackets; a target without a colon is dialled at port 443. *)
Theorem connect_dial_address rawURI hostHeader :
  let target := resolveTarget "CONNECT" rawURI hostHeader in
  let addr := JoinHostPort (fst target) (snd target) in
  (SplitHostPort rawURI <> None ->
   addr = rawURI
   \/ (rawURI = "[" +:+ fst target +:+ "]:" +:+ snd target
       /\ IndexByte (fst target) ":" = None
       /\ addr = fst target +:+ ":" +:+ snd target))
  /\ (IndexByte rawURI ":" = None -> addr = rawURI +:+ ":443").
Proof.
  intros target addr. subst addr target.
  change (resolveTarget "CONNECT" rawURI hostHeader) with (parseHostPort rawURI "443").
  unfold parseHostPort. split.
  - intros Hs. destruct (SplitHostPort rawURI) as [[host port] |] eqn:E; [| contradiction].
    cbn [fst snd]. unfold JoinHostPort.
    destruct (SplitHostPort_shape _ _ _ E) as [[Hr Hc] | Hr].
    + left. now rewrite Hc.
    + destruct (IndexByte host ":") eqn:Ec; [left | right].
      * symmetry. exact Hr.
      * now repeat split.
  - intros Hc. rewrite (SplitHostPort_no_colon _ Hc). cbn [fst snd].
    unfold JoinHostPort. now rewrite Hc.
Qed.

(** The theorem at a name with a port, an IPv6 literal, and a bare
    name. *)
Lemma connect_dial_address_witness :
  JoinHostPort (fst (resolveTarget "CONNECT" "example.org:8443" ""))
               (snd (resolveTarget "CONNECT" "example.org:8443" "")) = "example.org:8443"
  /\ JoinHostPort (fst (resolveTarget "CONNECT" "[2001:db8::1]:443" ""))
                  (snd (resolveTarget "CONNECT" "[2001:db8::1]:443" "")) = "[2001:db8::1]:443"
  /\ JoinHostPort (fst (resolveTarget "CONNECT" "example.org" ""))
                  (snd (resolveTarget "CONNECT" "example.org" "")) = "example.org:443".
Proof.
  split; [| split].
  - destruct (connect_dial_address "example.org:8443" "") as [H _].
    destruct H as [H | (H & _)]; [discriminate | exact H | discriminate H].
  - destruct (connect_dial_address "[2001:db8::1]:443" "") as [H _].
    destruct H as [H | (_ & H & _)]; [discriminate | exact H | discriminate H].
  - destruct (connect_dial_address "example.org" "") as [_ H].
    exact (H eq_refl).
Defined.

End DialAddress.

(** ** Reading a request back *)

Section ParserRoundTrip.




Lemma fields_from_tokens : forall s cur,
  match cur with Some f => isToken f | None => True end ->
  Forall isToken (fields_from cur s).
Proof.
  induction s as [|c s IH]; intros cur Hcur; simpl.
  - destruct cur; [constructor; [exact Hcur | constructor] | constructor].
  - destruct (isSpace c) eqn:Ec.
    + destruct cur; [constructor; [exact Hcur |] |]; now apply IH.
    + assert (Hone : isToken (String c "")).
      { split; [discriminate |]. unfold noSpace. simpl. now rewrite Ec. }
      destruct cur as [f |]; apply IH; [| exact Hone].
      destruct Hcur as [Hne Hf]. split; [destruct f; discriminate |].
      unfold noSpace in *. clear - Hf Ec.
      induction f as [|x f IHf]; simpl in *; [now rewrite Ec |].
      apply andb_true_iff in Hf as [Hx Hf]. now rewrite Hx, IHf.
Qed.

Lemma Fields_tokens s : Forall isToken (Fields s).
Proof. now apply fields_from_tokens. Qed.

Lemma isSpace_upper x : isSpace (upper_byte x) = isSpace x.
Proof. destruct x as [[] [] [] [] [] [] [] []]; reflexivity. Qed.

Lemma upper_upper_byte x : upper_byte (upper_byte x) = upper_byte x.
Proof. destruct x as [[] [] [] [] [] [] [] []]; reflexivity. Qed.

Lemma ToUpper_idem s : ToUpper (ToUpper s) = ToUpper s.
Proof.
  unfold ToUpper. induction s as [|x s IH]; simpl; [reflexivity |].
  now rewrite upper_upper_byte, IH.
Qed.

Lemma isToken_ToUpper s : isToken s -> isToken (ToUpper s).
Proof.
  intros [Hne Hs]. split; [destruct s; [contradiction | discriminate] |].
  unfold noSpace, ToUpper in *. clear Hne.
  induction s as [|x s IH]; simpl in *; [reflexivity |].
  apply andb_true_iff in Hs as [Hx Hs]. now rewrite isSpace_upper, Hx, IH.
Qed.











Lemma request_tokens clientConn method rawURI httpVersion headers hostHeader reader :
  readRequest clientConn
  = Some (Request method rawURI httpVersion headers hostHeader reader) ->
  isToken method /\ ToUpper method = method /\ isToken rawURI /\ isToken httpVersion.
Proof.
  intros H.
  destruct (readRequest_Request _ _ _ _ _ _ _ H)
    as (requestLine & term & _ & _ & Hlen & -> & -> & -> & _).
  pose proof (Fields_tokens requestLine) as Htok.
  destruct (Fields requestLine) as [|f0 [|f1 [|f2 fs]]]; try (simpl in Hlen; lia).
  inversion Htok as [| ? ? H0 Htok1]; subst.
  inversion Htok1 as [| ? ? H1 Htok2]; subst.
  inversion Htok2 as [| ? ? H2 _]; subst.
  cbn [nth]. split; [apply (isToken_ToUpper _ H0) |].
  split; [apply ToUpper_idem |]. split; assumption.
Qed.

(** X11. Whatever the client sends, the fields of a parsed request are
    tokens: the method, the URI and the version are not empty and hold no
    white space, and the method is in upper case. *)
Theorem parsed_request_tokens clientConn method rawURI httpVersion headers hostHeader reader :
  readRequest clientConn
  = Some (Request method rawURI httpVersion headers hostHeader reader) ->
  isToken method /\ ToUpper method = method /\ isToken rawURI /\ isToken httpVersion.
Proof. apply request_tokens. Qed.

(** The theorem at a request line with tabs and runs of spaces between
    its fields. *)
Lemma parsed_request_tokens_witness :
  isToken "PATCH" /\ isToken "/a" /\ isToken "HTTP/1.1".
Proof.
  destruct (parsed_request_tokens
              (String (ascii_of_nat 9) "" +:+ "patch   /a" +:+ String (ascii_of_nat 9) ""
               +:+ "HTTP/1.1  extra" +:+ CRLF +:+ CRLF)
              "PATCH" "/a" "HTTP/1.1" [] "" "" eq_refl) as (Hm & _ & Hu & Hv).
  split; [exact Hm | split; [exact Hu | exact Hv]].
Defined.

End ParserRoundTrip.

(** ** Forwarding through a second proxy *)

Section Chain.

Variable w : World.
Variable blocklist : gmap string bool.



End Chain.


(** ** Every run of the handler *)

Section Runs.

Variable w : World.
Variable blocklist : gmap string bool.

Lemma flat_map_targetWrites {A} (f : Event -> list A) hs :
  (forall d, f (EvTargetWrite d) = []) ->
  flat_map f (List.map EvTargetWrite hs) = [].
Proof.
  intros Hf. induction hs as [|h hs IH]; simpl; [reflexivity |]. now rewrite Hf, IH.
Qed.

(** The trace of [handleHTTP], by the outcome of the dial and of the first
    write. *)
Lemma handleHTTP_trace reader method rawURI httpVersion headers targetHost targetPort :
  let addr := JoinHostPort targetHost targetPort in
  handleHTTP w reader method rawURI httpVersion headers targetHost targetPort
  = match dial w addr with
    | DialErr err =>
        [EvDial addr;
         EvLog (mkLog (now w) (remoteAddr w) targetHost method "ERROR"
                      ("Failed to connect: " +:+ err));
         EvClientWrite (errorResponse 502 "Bad Gateway")]
    | DialOk =>
        if targetWriteOk w 0 then
          [EvDial addr; EvTargetWrite (forwardedRequestLine method rawURI httpVersion)]
          ++ List.map EvTargetWrite headers
          ++ [EvTargetWrite CRLF;
              EvLog (mkLog (now w) (remoteAddr w) targetHost method "OK"
                           (cleanRequestURI rawURI));
              EvRelay (Some reader); EvTargetClose]
        else
          [EvDial addr; EvTargetWrite (forwardedRequestLine method rawURI httpVersion);
           EvLog (mkLog (now w) (remoteAddr w) targetHost method "ERROR"
                        "Failed to forward request");
           EvClientWrite (errorResponse 502 "Bad Gateway");
           EvTargetClose]
    end.
Proof.
  intros addr. unfold handleHTTP. fold addr.
  destruct (dial w addr); [| reflexivity].
  destruct (targetWriteOk w 0); [| reflexivity].
  cbn [negb List.app]. unfold forwardedRequestLine.
  rewrite <- !List.app_assoc. reflexivity.
Qed.

(** The trace of [handleHTTPS], by the outcome of the dial and of the
    reply to the client. *)
Lemma handleHTTPS_trace targetHost targetPort :
  let addr := JoinHostPort targetHost targetPort in
  handleHTTPS w targetHost targetPort
  = match dial w addr with
    | DialErr err =>
        [EvDial addr;
         EvLog (mkLog (now w) (remoteAddr w) targetHost "CONNECT" "ERROR"
                      ("Failed to connect: " +:+ err));
         EvClientWrite (errorResponse 502 "Bad Gateway")]
    | DialOk =>
        if clientWriteOk w 0 then
          [EvDial addr; EvClientWrite tunnelReply;
           EvLog (mkLog (now w) (remoteAddr w) targetHost "CONNECT" "OK"
                        "Tunnel established");
           EvRelay None; EvTargetClose]
        else
          [EvDial addr; EvClientWrite tunnelReply;
           EvLog (mkLog (now w) (remoteAddr w) targetHost "CONNECT" "ERROR"
                        "Failed to send response");
           EvTargetClose]
    end.
Proof.
  intros addr. unfold handleHTTPS. fold addr.
  destruct (dial w addr); [| reflexivity].
  destruct (clientWriteOk w 0); reflexivity.
Qed.

(** Every run is one of eight traces. *)
Lemma HandleConnection_cases clientConn t :
  HandleConnection w clientConn blocklist = Some t ->
  (readRequest clientConn = Some ReadFailed
   /\ t = [EvLog (mkLog (now w) (remoteAddr w) "" "" "ERROR" "Failed to read request");
           EvClientClose])
  \/ (readRequest clientConn = Some InvalidLine
      /\ t = [EvLog (mkLog (now w) (remoteAddr w) "" "" "ERROR" "Invalid request line");
              EvClientWrite (errorResponse 400 "Bad Request"); EvClientClose])
  \/ exists method rawURI httpVersion headers hostHeader reader,
       readRequest clientConn
       = Some (Request method rawURI httpVersion headers hostHeader reader)
       /\ let targetHost := fst (resolveTarget method rawURI hostHeader) in
          let targetPort := snd (resolveTarget method rawURI hostHeader) in
          (isBlocked targetHost blocklist = true
           /\ t = [EvLog (mkLog (now w) (remoteAddr w) targetHost method
                                "BLOCKED" "Domain is blocked");
                   EvClientWrite (errorResponse 403 "Forbidden"); EvClientClose])
          \/ (isBlocked targetHost blocklist = false /\ method = "CONNECT"
              /\ t = handleHTTPS w targetHost targetPort ++ [EvClientClose])
          \/ (isBlocked targetHost blocklist = false /\ method <> "CONNECT"
              /\ t = handleHTTP w reader method rawURI httpVersion headers
                                targetHost targetPort ++ [EvClientClose]).
Proof.
  intros Ht. destruct (readRequest_total clientConn) as [p Hp].
  destruct p as [| | method rawURI httpVersion headers hostHeader reader].
  - left. unfold HandleConnection in Ht. rewrite Hp in Ht.
    apply (inj Some) in Ht. now subst t.
  - right. left. unfold HandleConnection in Ht. rewrite Hp in Ht.
    apply (inj Some) in Ht. now subst t.
  - right. right. exists method, rawURI, httpVersion, headers, hostHeader, reader.
    split; [exact Hp |].
    rewrite (HandleConnection_request w blocklist _ _ _ _ _ _ _ Hp) in Ht.
    cbv zeta in Ht |- *.
    destruct (isBlocked (fst (resolveTarget method rawURI hostHeader)) blocklist).
    + left. apply (inj Some) in Ht. now subst t.
    + right. destruct (String.eqb_spec method "CONNECT") as [E | E];
        apply (inj Some) in Ht; subst t; [left | right]; now repeat split.
Qed.

Ltac run_cases Ht :=
  let Hreq := fresh "Hreq" in
  let Hb := fresh "Hb" in
  let Hm := fresh "Hm" in
  destruct (HandleConnection_cases _ _ Ht)
    as [[Hreq ->] | [[Hreq ->]
        | (method & rawURI & httpVersion & headers & hostHeader & reader & Hreq
           & [[Hb ->] | [(Hb & Hm & ->) | (Hb & Hm & ->)]])]];
  rewrite ?handleHTTPS_trace, ?handleHTTP_trace; cbv zeta;
  try (destruct (dial w _) eqn:Hdial;
       [match goal with
        | |- context [clientWriteOk w 0] => destruct (clientWriteOk w 0) eqn:Hwrite
        | |- context [targetWriteOk w 0] => destruct (targetWriteOk w 0) eqn:Hwrite
        end |]).

Ltac observe :=
  unfold logRecords, relays, clientWrites, targetWrites, dials, clientCloses,
    targetCloses, logsWithStatus;
  rewrite ?flat_map_app; rewrite ?flat_map_targetWrites by reflexivity;
  cbn [flat_map List.app List.length].

(** X13. Every connection leaves exactly one log record, stamped with the
    client's address; its status is OK, ERROR or BLOCKED, and it is OK
    exactly when the handler goes on to the relay, which it enters at
    most once. *)
Theorem one_log_record clientConn t :
  HandleConnection w clientConn blocklist = Some t ->
  exists r,
    logRecords t = [r]
    /\ logClient r = remoteAddr w /\ logTime r = now w
    /\ (logStatus r = "OK" \/ logStatus r = "ERROR" \/ logStatus r = "BLOCKED")
    /\ (logStatus r = "OK" <-> relays t <> [])
    /\ List.length (relays t) <= 1.
Proof.
  intros Ht. run_cases Ht; observe; eexists; (split; [reflexivity |]);
    cbn [logClient logTime logStatus];
    (split; [reflexivity |]); (split; [reflexivity |]);
    (split; [tauto |]); (split; [| lia]);
    (split; [intros H; first [discriminate H | discriminate]
            | intros H; first [reflexivity | now contradiction H]]).
Qed.

(** X14. Both connections are released on every path: the close of the
    client connection is the last event of every run and the only one of
    its kind; the target connection is closed exactly when the dial
    opened it, as the last thing before the client's close; and without
    a successful dial nothing is written to a target. *)
Theorem connections_released clientConn t :
  HandleConnection w clientConn blocklist = Some t ->
  (exists t', t = t' ++ [EvClientClose])
  /\ clientCloses t = 1
  /\ (dials t = [] -> targetCloses t = 0 /\ targetWrites t = [])
  /\ (forall addr err, In addr (dials t) -> dial w addr = DialErr err ->
        targetCloses t = 0 /\ targetWrites t = [])
  /\ (forall addr, In addr (dials t) -> dial w addr = DialOk ->
        targetCloses t = 1 /\ exists t', t = t' ++ [EvTargetClose; EvClientClose]).
Proof.
  intros Ht.
  run_cases Ht;
    (split; [try (now eexists [_]); try (now eexists [_; _]); try (now eexists [_; _; _]);
             try (now eexists [_; _; _; _]); try (now eexists [_; _; _; _; _]) |]).
  all: try (rewrite <- List.app_assoc; cbn [List.app];
            eexists ([_; _] ++ List.map EvTargetWrite headers ++ [_; _; _; _]);
            rewrite <- !List.app_assoc; reflexivity).
  all: observe; (split; [reflexivity |]).
  all: split; [intros H; first [discriminate H | now split] |].
  all: split; [intros addr e Hin Hd;
               first [solve [destruct Hin as [<- | []]; congruence]
                     | solve [destruct Hin]
                     | solve [split; reflexivity]] |].
  all: intros addr Hin Hd;
    first [solve [destruct Hin] | destruct Hin as [<- | []]];
    try congruence; (split; [reflexivity |]).
  all: try (now eexists [_]); try (now eexists [_; _]); try (now eexists [_; _; _]);
    try (now eexists [_; _; _; _]).
  rewrite <- List.app_assoc. cbn [List.app].
  eexists ([_; _] ++ List.map EvTargetWrite headers ++ [_; _; _]).
  rewrite <- !List.app_assoc. reflexivity.
Qed.

(** X15. The handler itself writes at most one message to the client,
    and only one of four: the 400, 403 or 502 response, or the reply that
    opens a tunnel; after an error response it never relays. *)
Theorem client_messages clientConn t :
  HandleConnection w clientConn blocklist = Some t ->
  List.length (clientWrites t) <= 1
  /\ (forall d, In d (clientWrites t) ->
        d = errorResponse 400 "Bad Request" \/ d = errorResponse 403 "Forbidden"
        \/ d = errorResponse 502 "Bad Gateway" \/ d = tunnelReply)
  /\ (forall d, In d (clientWrites t) -> d <> tunnelReply -> relays t = []).
Proof.
  intros Ht. run_cases Ht; observe.
  all: split; [lia |].
  all: split; [intros d Hin; first [solve [destruct Hin]
                                   | destruct Hin as [<- | []]; tauto] |].
  all: intros d Hin Hne; first [reflexivity | solve [destruct Hin]
                               | destruct Hin as [<- | []]; now contradiction Hne].
Qed.


End Runs.

(** The theorem at a forwarded GET, a blocked CONNECT and a request cut
    short. *)
Lemma one_log_record_witness :
  (exists t r,
     HandleConnection (sampleWorld DialOk (fun _ => true)) twoHosts ∅ = Some t
     /\ logRecords t = [r] /\ logStatus r = "OK" /\ relays t = [Some "body"])
  /\ (exists t r,
        HandleConnection (sampleWorld DialOk (fun _ => true))
          (requestBytes ["CONNECT blocked.example:443 HTTP/1.1"] "")
          {[ "blocked.example" := true ]} = Some t
        /\ logRecords t = [r] /\ logStatus r = "BLOCKED" /\ relays t = []).
Proof.
  split.
  - destruct (HandleConnection_total (sampleWorld DialOk (fun _ => true)) twoHosts ∅)
      as [t Ht].
    destruct (one_log_record _ _ _ _ Ht) as (r & Hr & _ & _ & _ & _ & _).
    exists t, r. split; [exact Ht | split; [exact Hr |]].
    assert (E : HandleConnection (sampleWorld DialOk (fun _ => true)) twoHosts ∅
                = Some ([EvDial "second.example:8080";
                         EvTargetWrite ("GET /p?q=1 HTTP/1.1" +:+ CRLF)]
                        ++ List.map EvTargetWrite twoHostsHeaders
                        ++ [EvTargetWrite CRLF;
                            EvLog (mkLog "2026-01-08 18:10:00" "127.0.0.1:52174"
                                         "second.example" "GET" "OK" "/p?q=1");
                            EvRelay (Some "body"); EvTargetClose; EvClientClose]))
      by (vm_compute; reflexivity).
    rewrite E in Ht. apply (inj Some) in Ht. subst t.
    apply (inj (fun x => [x])) in Hr. subst r. split; reflexivity.
  - destruct (HandleConnection_total (sampleWorld DialOk (fun _ => true))
                (requestBytes ["CONNECT blocked.example:443 HTTP/1.1"] "")
                {[ "blocked.example" := true ]}) as [t Ht].
    destruct (one_log_record _ _ _ _ Ht) as (r & Hr & _ & _ & _ & _ & _).
    exists t, r. split; [exact Ht | split; [exact Hr |]].
    assert (E : HandleConnection (sampleWorld DialOk (fun _ => true))
                  (requestBytes ["CONNECT blocked.example:443 HTTP/1.1"] "")
                  {[ "blocked.example" := true ]}
                = Some [EvLog (mkLog "2026-01-08 18:10:00" "127.0.0.1:52174"
                                     "blocked.example" "CONNECT" "BLOCKED"
                                     "Domain is blocked");
                        EvClientWrite (errorResponse 403 "Forbidden"); EvClientClose])
      by (vm_compute; reflexivity).
    rewrite E in Ht. apply (inj Some) in Ht. subst t.
    apply (inj (fun x => [x])) in Hr. subst r. split; reflexivity.
Defined.

(** The theorem at a forwarded GET and at a CONNECT whose dial fails. *)
Lemma connections_released_witness :
  (exists t,
     HandleConnection (sampleWorld DialOk (fun _ => true)) twoHosts ∅ = Some t
     /\ clientCloses t = 1 /\ targetCloses t = 1)
  /\ (exists t,
        HandleConnection (sampleWorld (DialErr "connection refused") (fun _ => true))
          (requestBytes ["CONNECT example.com:443 HTTP/1.1"] "") ∅ = Some t
        /\ clientCloses t = 1 /\ targetCloses t = 0 /\ targetWrites t = []).
Proof.
  split.
  - assert (E : HandleConnection (sampleWorld DialOk (fun _ => true)) twoHosts ∅
                = Some ([EvDial "second.example:8080";
                         EvTargetWrite ("GET /p?q=1 HTTP/1.1" +:+ CRLF)]
                        ++ List.map EvTargetWrite twoHostsHeaders
                        ++ [EvTargetWrite CRLF;
                            EvLog (mkLog "2026-01-08 18:10:00" "127.0.0.1:52174"
                                         "second.example" "GET" "OK" "/p?q=1");
                            EvRelay (Some "body"); EvTargetClose; EvClientClose]))
      by (vm_compute; reflexivity).
    destruct (connections_released _ _ _ _ E) as (_ & Hc & _ & _ & Hok).
    eexists. split; [exact E | split; [exact Hc |]].
    apply (Hok "second.example:8080"); [left; reflexivity | reflexivity].
  - assert (E : HandleConnection
                  (sampleWorld (DialErr "connection refused") (fun _ => true))
                  (requestBytes ["CONNECT example.com:443 HTTP/1.1"] "") ∅
                = Some [EvDial "example.com:443";
                        EvLog (mkLog "2026-01-08 18:10:00" "127.0.0.1:52174"
                                     "example.com" "CONNECT" "ERROR"
                                     "Failed to connect: connection refused");
                        EvClientWrite (errorResponse 502 "Bad Gateway"); EvClientClose])
      by (vm_compute; reflexivity).
    destruct (connections_released _ _ _ _ E) as (_ & Hc & _ & Herr & _).
    eexists. split; [exact E | split; [exact Hc |]].
    apply (Herr "example.com:443" "connection refused");
      [left; reflexivity | reflexivity].
Defined.

(** The theorem at a CONNECT that is tunnelled and at a request line of
    two words. *)
Lemma client_messages_witness :
  (exists t,
     HandleConnection (sampleWorld DialOk (fun _ => true))
       (requestBytes ["CONNECT example.com:443 HTTP/1.1"] "") ∅ = Some t
     /\ clientWrites t = [tunnelReply])
  /\ (exists t,
        HandleConnection (sampleWorld DialOk (fun _ => true))
          (requestBytes ["GET /"] "") ∅ = Some t
        /\ clientWrites t = [errorResponse 400 "Bad Request"] /\ relays t = []).
Proof.
  split.
  - assert (E : HandleConnection (sampleWorld DialOk (fun _ => true))
                  (requestBytes ["CONNECT example.com:443 HTTP/1.1"] "") ∅
                = Some [EvDial "example.com:443"; EvClientWrite tunnelReply;
                        EvLog (mkLog "2026-01-08 18:10:00" "127.0.0.1:52174"
                                     "example.com" "CONNECT" "OK" "Tunnel established");
                        EvRelay None; EvTargetClose; EvClientClose])
      by (vm_compute; reflexivity).
    destruct (client_messages _ _ _ _ E) as (_ & _ & _).
    eexists. split; [exact E | reflexivity].
  - assert (E : HandleConnection (sampleWorld DialOk (fun _ => true))
                  (requestBytes ["GET /"] "") ∅
                = Some [EvLog (mkLog "2026-01-08 18:10:00" "127.0.0.1:52174"
                                     "" "" "ERROR" "Invalid request line");
                        EvClientWrite (errorResponse 400 "Bad Request"); EvClientClose])
      by (vm_compute; reflexivity).
    destruct (client_messages _ _ _ _ E) as (_ & _ & Hrel).
    eexists. split; [exact E | split; [reflexivity |]].
    apply (Hrel (errorResponse 400 "Bad Request")); [left; reflexivity | discriminate].
Defined.


(** ** A target that cannot be reached *)

Section Unreachable.

Variable w : World.
Variable blocklist : gmap string bool.


End Unreachable.


(** ** The relay, at every moment *)

Section RelayAlways.
Import Relay.

Variables (fromClient fromTarget : list string).
Variables (clientEnd targetEnd : ReadEnd).
Variables (clientTCP targetTCP : bool).

Local Abbreviation start :=
  (init fromClient clientEnd fromTarget targetEnd clientTCP targetTCP).




(** X19. The WaitGroup counter never exceeds two and is at least one
    whenever a task is about to call [wg.Done()], so that the counter
    never goes below zero; and once both goroutines are started it is
    zero exactly when both have finished. *)
Theorem waitgroup_counter s :
  steps start s ->
  wg s <= 2
  /\ (pc (toTarget s) = Exiting -> 1 <= wg s)
  /\ (pc (toClient s) = Exiting -> 1 <= wg s)
  /\ (main s = AtWait ->
      (wg s = 0 <-> pc (toTarget s) = Finished /\ pc (toClient s) = Finished)).
Proof.
  intros Hs. apply stateInv_steps in Hs as (_ & _ & Hm).
  unfold live in Hm.
  destruct (main s) eqn:Em.
  - destruct Hm as (Hw & HT & HC). rewrite HT, HC.
    split; [lia |]. split; [discriminate |]. split; discriminate.
  - destruct Hm as (Hw & HT & HC). rewrite HT, HC.
    split; [lia |]. split; [discriminate |]. split; discriminate.
  - destruct Hm as (Hw & HT & HC). rewrite HC.
    split; [destruct (pc (toTarget s)); simpl in Hw; lia |].
    split; [intros E; rewrite E in Hw; simpl in Hw; lia |].
    split; discriminate.
  - destruct Hm as (Hw & HT & HC).
    split; [destruct (pc (toTarget s)), (pc (toClient s)); simpl in Hw; lia |].
    split; [intros E; rewrite E in Hw; simpl in Hw; lia |].
    split; [intros E; rewrite E in Hw; destruct (pc (toTarget s)); simpl in Hw; lia |].
    intros _. split.
    + intros Hz. rewrite Hz in Hw.
      destruct (pc (toTarget s)), (pc (toClient s)); simpl in Hw; try lia.
      split; reflexivity.
    + intros [ET EC]. rewrite ET, EC in Hw. exact Hw.
  - destruct Hm as (Hz & Hw & HT & HC).
    split; [lia |].
    split; [intros E; rewrite E in Hw; simpl in Hw; lia |].
    split; [intros E; rewrite E in Hw; destruct (pc (toTarget s)); simpl in Hw; lia |].
    discriminate.
Qed.

Lemma task_can_step t :
  pc t = Copying \/ pc t = Copied -> exists t', task_step t t'.
Proof.
  intros [E | E].
  - destruct (pending t) as [| chunk rest] eqn:Ep.
    + destruct (srcEnd t) eqn:Ee.
      * eexists. now apply copy_eof.
      * eexists. now apply copy_read_error.
    + eexists. eapply copy_chunk; eassumption.
  - eexists. now apply close_write.
Qed.

(** X20. The relay cannot get stuck: in every state it can reach, unless
    the handler has returned from [wg.Wait()], some statement of the
    handler or of one of the two goroutines can run. *)
Theorem relay_never_stuck s :
  steps start s -> main s <> Returned -> exists s', step s s'.
Proof.
  intros Hs Hm. apply stateInv_steps in Hs as (_ & _ & Hinv).
  destruct (main s) eqn:Em; [| | | | contradiction].
  - eexists. now apply main_add.
  - eexists. now apply main_go1.
  - eexists. now apply main_go2.
  - destruct Hinv as (Hw & HT & HC). unfold live in Hw.
    destruct (pc (toTarget s)) eqn:ET; [contradiction | | | |].
    + destruct (task_can_step (toTarget s) (or_introl ET)) as [t' Ht].
      eexists. apply toTarget_step. exact Ht.
    + destruct (task_can_step (toTarget s) (or_intror ET)) as [t' Ht].
      eexists. apply toTarget_step. exact Ht.
    + eexists. now apply toTarget_done.
    + destruct (pc (toClient s)) eqn:EC; [contradiction | | | |].
      * destruct (task_can_step (toClient s) (or_introl EC)) as [t' Ht].
        eexists. apply toClient_step. exact Ht.
      * destruct (task_can_step (toClient s) (or_intror EC)) as [t' Ht].
        eexists. apply toClient_step. exact Ht.
      * eexists. now apply toClient_done.
      * eexists. apply main_wait; [exact Em | exact Hw].
Qed.






End RelayAlways.

Section RelaySamples.
Import Relay.


(** The theorem where the client has sent nothing and its task is about
    to call [wg.Done()], the other task still copying. *)
Lemma waitgroup_counter_witness :
  exists s,
    steps (init [] AtEOF ["data"] AtEOF true true) s
    /\ pc (toTarget s) = Exiting /\ 1 <= wg s <= 2.
Proof.
  set (mid := mkState AtWait 2
                (mkTask Exiting [] AtEOF "" false true true)
                (mkTask Copying ["data"] AtEOF "" false true false)).
  assert (Hrun : run [Main; Main; Main; EndOfSource ToTarget; CloseWrite ToTarget]
                     (init [] AtEOF ["data"] AtEOF true true)
                 = Some mid) by reflexivity.
  apply run_steps in Hrun. exists mid.
  destruct (waitgroup_counter _ _ _ _ _ _ _ Hrun) as (Hle & Hge & _ & _).
  split; [exact Hrun | split; [reflexivity | split; [exact (Hge eq_refl) | exact Hle]]].
Defined.

(** The theorem where one task has finished and the other waits on a
    source that ends in a read error. *)
Lemma relay_never_stuck_witness :
  exists s s',
    steps (init [] AtEOF [] ReadError true true) s
    /\ main s = AtWait /\ pc (toTarget s) = Finished /\ step s s'.
Proof.
  set (mid := mkState AtWait 1
                (mkTask Finished [] AtEOF "" false true true)
                (mkTask Copying [] ReadError "" false true false)).
  assert (Hrun : run ([Main; Main; Main] ++ drain ToTarget [])
                     (init [] AtEOF [] ReadError true true)
                 = Some mid) by reflexivity.
  apply run_steps in Hrun.
  destruct (relay_never_stuck _ _ _ _ _ _ _ Hrun) as [s' Hs']; [discriminate |].
  exists mid, s'. split; [exact Hrun | split; [reflexivity | split; [reflexivity | exact Hs']]].
Defined.


End RelaySamples.

(** ** Absolute URIs with a plain host and a path *)

Section AbsoluteURI.

Lemma allBytes_app q s t : allBytes q (s +:+ t) = allBytes q s && allBytes q t.
Proof.
  induction s as [|c s IH]; simpl; [reflexivity |]. now rewrite IH, andb_assoc.
Qed.

Lemma allBytes_impl (q r : ascii -> bool) s :
  (forall c, q c = true -> r c = true) -> allBytes q s = true -> allBytes r s = true.
Proof.
  intros Hqr. induction s as [|c s IH]; simpl; [reflexivity |].
  intros H. apply andb_true_iff in H as [Hc Hs]. now rewrite (Hqr _ Hc), IH.
Qed.

Lemma allBytes_IndexByte q x s :
  (forall c, q c = true -> byte_eqb c x = false) ->
  allBytes q s = true -> IndexByte s x = None.
Proof.
  intros Hq. induction s as [|c s IH]; simpl; [reflexivity |].
  intros H. apply andb_true_iff in H as [Hc Hs]. now rewrite (Hq _ Hc), IH.
Qed.

Lemma allBytes_LastIndexByte q x s :
  (forall c, q c = true -> byte_eqb c x = false) ->
  allBytes q s = true -> LastIndexByte s x = None.
Proof.
  intros Hq. induction s as [|c s IH]; simpl; [reflexivity |].
  intros H. apply andb_true_iff in H as [Hc Hs]. now rewrite (Hq _ Hc), IH.
Qed.

Lemma allBytes_CountByte q x s :
  (forall c, q c = true -> byte_eqb c x = false) ->
  allBytes q s = true -> CountByte s x = 0.
Proof.
  intros Hq. induction s as [|c s IH]; simpl; [reflexivity |].
  intros H. apply andb_true_iff in H as [Hc Hs]. now rewrite (Hq _ Hc), IH.
Qed.

Lemma allBytes_Index q x s :
  (forall c, q c = true -> byte_eqb c x = false) ->
  allBytes q s = true -> Index s (String x "") = None.
Proof.
  intros Hq. induction s as [|c s IH]; [reflexivity |].
  intros H. simpl in H. apply andb_true_iff in H as [Hc Hs].
  cbn [Index HasPrefix]. now rewrite (Hq _ Hc), IH.
Qed.

Lemma Index_skip q x s t :
  (forall c, q c = true -> byte_eqb c x = false) ->
  allBytes q s = true ->
  Index (s +:+ String x t) (String x "") = Some (String.length s).
Proof.
  intros Hq. induction s as [|c s IH]; intros H.
  - cbn [String.append Index HasPrefix]. unfold byte_eqb. rewrite Ascii.eqb_refl.
    now rewrite HasPrefix_nil.
  - simpl in H. apply andb_true_iff in H as [Hc Hs].
    cbn [String.append Index HasPrefix String.length].
    now rewrite (Hq _ Hc), (IH Hs).
Qed.

(** What a byte of a plain host is not. *)
Lemma plainHostByte_facts c :
  plainHostByte c = true ->
  byte_eqb c "/" = false /\ byte_eqb c ":" = false /\ byte_eqb c "@" = false
  /\ byte_eqb c "[" = false /\ byte_eqb c "#" = false /\ byte_eqb c "?" = false
  /\ byte_eqb c "%" = false /\ byte_eqb c "+" = false
  /\ shouldEscape c encodeHost = false
  /\ negb ((code c <? 32)%nat || (code c =? 127)%nat) = true.
Proof.
  destruct c as [[] [] [] [] [] [] [] []]; vm_compute; intros H;
    first [discriminate H | repeat split].
Qed.

Lemma plainPathByte_facts c :
  plainPathByte c = true ->
  byte_eqb c "#" = false /\ byte_eqb c "?" = false
  /\ negb ((code c <? 32)%nat || (code c =? 127)%nat) = true.
Proof.
  unfold plainPathByte. intros H.
  apply andb_true_iff in H as [H H3]. apply andb_true_iff in H as [H1 H2].
  apply negb_true_iff in H2, H3. auto.
Qed.

Lemma unescape_plainHost h :
  plainHost h = true -> unescape h encodeHost = Some h.
Proof.
  intros H. unfold unescape.
  assert (E : unescapeValid h encodeHost = true /\ unescapeDecode h encodeHost = h).
  { induction h as [|c h IH]; [split; reflexivity |].
    unfold plainHost in H. simpl in H. apply andb_true_iff in H as [Hc Hh].
    destruct (plainHostByte_facts _ Hc) as (_ & _ & _ & _ & _ & _ & Hp & Hq & He & _).
    destruct (IH Hh) as [IH1 IH2].
    cbn [unescapeValid unescapeDecode]. rewrite Hp, Hq, He, IH1, IH2.
    rewrite andb_false_r. split; reflexivity. }
  destruct E as [-> ->]. reflexivity.
Qed.

Lemma parseHost_plainHost h : plainHost h = true -> parseAuthority h = Some h.
Proof.
  intros H. unfold parseAuthority, LastIndex1.
  rewrite (allBytes_LastIndexByte plainHostByte "@" h
             (fun c Hc => proj1 (proj2 (proj2 (plainHostByte_facts c Hc)))) H).
  unfold parseHost, LastIndex1.
  assert (Hb : HasPrefix h "[" = false).
  { destruct h as [|c h]; [reflexivity |].
    unfold plainHost in H. simpl in H. apply andb_true_iff in H as [Hc _].
    simpl. destruct (plainHostByte_facts _ Hc) as (_ & _ & _ & -> & _). reflexivity. }
  rewrite Hb.
  rewrite (allBytes_LastIndexByte plainHostByte ":" h
             (fun c Hc => proj1 (proj2 (plainHostByte_facts c Hc))) H).
  now apply unescape_plainHost.
Qed.

Lemma andb_negb_l b r : negb b && r = true -> b = false.
Proof. destruct b; [discriminate | reflexivity]. Qed.

Lemma plain_rest host p :
  plainHost host = true -> allBytes plainPathByte p = true ->
  allBytes (fun c => negb (byte_eqb c "?")
                     && negb ((code c <? 32)%nat || (code c =? 127)%nat))
           ("//" +:+ host +:+ "/" +:+ p) = true.
Proof.
  intros Hh Hp. rewrite !allBytes_app. cbn [allBytes].
  rewrite (allBytes_impl plainHostByte _ host); [| | exact Hh].
  - rewrite (allBytes_impl plainPathByte _ p); [reflexivity | | exact Hp].
    intros c Hc. destruct (plainPathByte_facts c Hc) as (_ & -> & ->). reflexivity.
  - intros c Hc.
    destruct (plainHostByte_facts c Hc) as (_ & _ & _ & _ & _ & -> & _ & _ & _ & ->).
    reflexivity.
Qed.

Lemma parse_after_scheme raw sch host p :
  getScheme raw = Some (sch, "//" +:+ host +:+ "/" +:+ p) ->
  ToLower sch = sch -> String.eqb sch "" = false ->
  stringContainsCTLByte raw = false -> String.eqb raw "*" = false ->
  plainHost host = true -> plainPath p = true ->
  parse raw
  = Some (mkURL sch "" host ("/" +:+ unescapeDecode p encodePath) false "" "").
Proof.
  intros Hs Hlow Hne Hctl Hstar Hh Hp.
  unfold plainPath in Hp. apply andb_true_iff in Hp as [Hp Hv].
  pose proof (plain_rest host p Hh Hp) as Hrest.
  set (rest := "//" +:+ host +:+ "/" +:+ p) in *.
  unfold parse. rewrite Hctl, Hstar, Hs, Hlow.
  assert (Hq : forall c,
             negb (byte_eqb c "?") && negb ((code c <? 32)%nat || (code c =? 127)%nat) = true ->
             byte_eqb c "?" = false)
    by (intros c; apply andb_negb_l).
  rewrite (allBytes_CountByte _ "?" rest Hq Hrest), andb_false_r.
  unfold Cut. rewrite (allBytes_Index _ "?" rest Hq Hrest).
  assert (H1 : HasPrefix rest "/" = true).
  { unfold rest. simpl. first [reflexivity | apply HasPrefix_nil]. }
  assert (H2 : HasPrefix rest "//" = true).
  { unfold rest. simpl. first [reflexivity | apply HasPrefix_nil]. }
  rewrite H1, H2, Hne. cbn [negb andb orb].
  change (drop 2 rest) with (host +:+ String "/" p).
  rewrite (Index_skip plainHostByte "/" host p
             (fun c Hc => proj1 (plainHostByte_facts c Hc)) Hh).
  rewrite take_app, drop_app, (parseHost_plainHost host Hh).
  unfold unescape.
  change (unescapeValid (String "/" p) encodePath) with (unescapeValid p encodePath).
  rewrite Hv. reflexivity.
Qed.

Lemma Parse_plain sch host p :
  sch = "http" \/ sch = "https" ->
  plainHost host = true -> plainPath p = true ->
  Parse (sch +:+ "://" +:+ host +:+ "/" +:+ p)
  = Some (mkURL sch "" host ("/" +:+ unescapeDecode p encodePath) false "" "").
Proof.
  intros Hsch Hh Hp.
  assert (Hp' := Hp). unfold plainPath in Hp'. apply andb_true_iff in Hp' as [Hpb _].
  set (raw := sch +:+ "://" +:+ host +:+ "/" +:+ p).
  assert (Hraw : allBytes (fun c => negb (byte_eqb c "#")
                                    && negb ((code c <? 32)%nat || (code c =? 127)%nat))
                          raw = true).
  { unfold raw. rewrite !allBytes_app.
    rewrite (allBytes_impl plainHostByte _ host); [| | exact Hh].
    - rewrite (allBytes_impl plainPathByte _ p); [| | exact Hpb].
      + destruct Hsch as [-> | ->]; reflexivity.
      + intros c Hc. destruct (plainPathByte_facts c Hc) as (-> & _ & ->). reflexivity.
    - intros c Hc.
      destruct (plainHostByte_facts c Hc) as (_ & _ & _ & _ & -> & _ & _ & _ & _ & ->).
      reflexivity. }
  unfold Parse, Cut.
  rewrite (allBytes_Index _ "#" raw (fun c => andb_negb_l _ _) Hraw).
  assert (Hctl : stringContainsCTLByte raw = false).
  { unfold stringContainsCTLByte.
    rewrite (allBytes_impl _ _ raw) with (2 := Hraw); [reflexivity |].
    intros c Hc. apply andb_true_iff in Hc as [_ Hc]. exact Hc. }
  assert (Hstar : String.eqb raw "*" = false)
    by (unfold raw; destruct Hsch as [-> | ->]; reflexivity).
  assert (Hs : getScheme raw = Some (sch, "//" +:+ host +:+ "/" +:+ p))
    by (unfold raw; destruct Hsch as [-> | ->]; reflexivity).
  assert (Hlow : ToLower sch = sch) by (destruct Hsch as [-> | ->]; reflexivity).
  assert (Hne : String.eqb sch "" = false) by (destruct Hsch as [-> | ->]; reflexivity).
  rewrite (parse_after_scheme raw sch host p Hs Hlow Hne Hctl Hstar Hh Hp).
  reflexivity.
Qed.

Lemma hasHTTPScheme_plain sch r :
  sch = "http" \/ sch = "https" -> hasHTTPScheme (sch +:+ "://" +:+ r) = true.
Proof.
  intros [-> | ->]; unfold hasHTTPScheme; simpl; rewrite ?HasPrefix_nil;
    first [reflexivity | apply orb_true_r].
Qed.

(** X22. The path forwarded for an absolute URI is the path percent-
    decoded, not the bytes the client sent: for a plain host and a path
    without query or fragment, cleaning [scheme://host/path] gives the
    slash and the decoded path, so that an escaped CR LF, space or
    question mark reaches the request line written to the target as the
    byte itself. *)
Theorem absolute_path_is_decoded sch host p method httpVersion :
  sch = "http" \/ sch = "https" ->
  plainHost host = true -> plainPath p = true ->
  cleanRequestURI (sch +:+ "://" +:+ host +:+ "/" +:+ p)
  = "/" +:+ unescapeDecode p encodePath
  /\ forwardedRequestLine method (sch +:+ "://" +:+ host +:+ "/" +:+ p) httpVersion
     = method +:+ " /" +:+ unescapeDecode p encodePath +:+ " " +:+ httpVersion +:+ CRLF.
Proof.
  intros Hsch Hh Hp.
  assert (E : cleanRequestURI (sch +:+ "://" +:+ host +:+ "/" +:+ p)
              = "/" +:+ unescapeDecode p encodePath).
  { unfold cleanRequestURI.
    rewrite (hasHTTPScheme_plain sch _ Hsch), (Parse_plain sch host p Hsch Hh Hp).
    reflexivity. }
  split; [exact E |].
  unfold forwardedRequestLine. rewrite E. rewrite !append_assoc. reflexivity.
Qed.

(** X23. The target of a request with an absolute URI on a plain host is
    that host, on port 80 for http and 443 for https, whatever the Host
    header says: the block check and the dial are made on the host of
    the URI, and a Host header naming another site changes neither. *)
Theorem absolute_uri_target sch host p method hostHeader :
  sch = "http" \/ sch = "https" ->
  plainHost host = true -> plainPath p = true -> method <> "CONNECT" ->
  resolveTarget method (sch +:+ "://" +:+ host +:+ "/" +:+ p) hostHeader
  = (host, if String.eqb sch "https" then "443" else "80").
Proof.
  intros Hsch Hh Hp Hm.
  unfold resolveTarget, extractHostFromURI.
  rewrite (method_neq_eqb _ Hm).
  rewrite (hasHTTPScheme_plain sch _ Hsch), (Parse_plain sch host p Hsch Hh Hp).
  unfold Hostname, Port, splitHostPort. cbn [Host Scheme].
  rewrite (allBytes_LastIndexByte plainHostByte ":" host
             (fun c Hc => proj1 (proj2 (plainHostByte_facts c Hc))) Hh).
  assert (Hb : HasPrefix host "[" = false).
  { destruct host as [|c h]; [reflexivity |].
    unfold plainHost in Hh. simpl in Hh. apply andb_true_iff in Hh as [Hc _].
    simpl. destruct (plainHostByte_facts _ Hc) as (_ & _ & _ & -> & _). reflexivity. }
  rewrite Hb. reflexivity.
Qed.

End AbsoluteURI.

(** The theorem at a path with an escaped CR LF: the request line written
    to the target is two lines. *)
Lemma absolute_path_is_decoded_witness :
  forwardedRequestLine "GET" "http://example.com/a%0D%0AX-Injected:%20y" "HTTP/1.1"
  = "GET /a" +:+ CRLF +:+ "X-Injected: y HTTP/1.1" +:+ CRLF.
Proof.
  exact (proj2 (absolute_path_is_decoded "http" "example.com" "a%0D%0AX-Injected:%20y"
                  "GET" "HTTP/1.1" (or_introl eq_refl) eq_refl eq_refl)).
Defined.

(** The theorem at an https URI and a Host header for another site. *)
Lemma absolute_uri_target_witness :
  resolveTarget "GET" "https://example.org/index.html" "other.example"
  = ("example.org", "443").
Proof.
  refine (absolute_uri_target "https" "example.org" "index.html" "GET" "other.example"
            (or_intror eq_refl) eq_refl eq_refl _).
  discriminate.
Defined.
